(** * jshint-mode: an HTTP front end to JSHint and JSLint

    A shallow embedding of [jshint-mode.js] and the properties of its
    report formatter, its configuration cache, its request handler and
    its port-retrying listener.

    Conventions of the embedding.
    - A JavaScript string is a [string]; a character stands for a code
      unit below 256.
    - [undefined] form fields and properties are [None].
    - Integers held in JavaScript numbers (line numbers, ports, stat
      fields, clock readings) are [Z].
    - Code that may throw returns an [outcome]; the process state that the
      script keeps in globals is threaded explicitly. *)

From Stdlib Require Import ZArith String Ascii DecimalString List Lia Bool.
From Stdlib Require DecimalPos.
From stdpp Require Import gmap strings list.
Import ListNotations.
Open Scope Z_scope.

(* ================================================================== *)
(** * JavaScript strings *)
(* ================================================================== *)

Definition LF : ascii := ascii_of_nat 10.
Definition CR : ascii := ascii_of_nat 13.

(** The line terminator written ['\n'] in the script. *)
Definition nl : string := String LF "".

(** The class [\s] of ECMAScript regular expressions on code units below
    256: TAB, LF, VT, FF, CR, SPACE and NO-BREAK SPACE. *)
Definition is_space (c : ascii) : bool :=
  let n := N_of_ascii c in
  (((9 <=? n) && (n <=? 13)) || (n =? 32) || (n =? 160))%N.

(** The class [\S]. *)
Definition not_space (c : ascii) : bool := negb (is_space c).

(** [String.prototype.toUpperCase] on ASCII letters. *)
Definition upper_char (c : ascii) : ascii :=
  let n := N_of_ascii c in
  if ((97 <=? n) && (n <=? 122))%N then ascii_of_N (n - 32) else c.

Fixpoint toUpperCase (s : string) : string :=
  match s with
  | EmptyString => EmptyString
  | String c t => String (upper_char c) (toUpperCase t)
  end.

(** [ToString] of an integral number. *)
Definition number_to_string (z : Z) : string :=
  NilZero.string_of_int (Z.to_int z).

(** [ToString] of a value that is a string or [undefined]. *)
Definition to_string (v : option string) : string :=
  match v with
  | Some s => s
  | None => "undefined"
  end.

(** [ToBoolean] of a value that is a string or [undefined]. *)
Definition truthy (v : option string) : bool :=
  match v with
  | Some s => negb (String.eqb s "")
  | None => false
  end.

(** [v || d] for a value that is a string or [undefined]. *)
Definition or_default (v : option string) (d : string) : string :=
  match v with
  | Some s => if String.eqb s "" then d else s
  | None => d
  end.

(** [v == s] and [v === s] for a value that is a string or [undefined]
    and a string [s]. *)
Definition equals (v : option string) (s : string) : bool :=
  match v with
  | Some x => String.eqb x s
  | None => false
  end.

(** [Array.prototype.join('')]. *)
Definition join (parts : list string) : string := String.concat "" parts.

(* ------------------------------------------------------------------ *)
(** ** A backtracking matcher for the regular expressions of the script

    Continuations receive the text captured so far and the rest of the
    input; the first alternative that lets the continuation succeed wins,
    as in ECMAScript. *)
(* ------------------------------------------------------------------ *)

Section Matcher.
Context {R : Type}.

(** Greedy [C*] for a character class [C]. *)
Fixpoint re_star (cls : ascii -> bool) (acc s : string)
         (k : string -> string -> option R) : option R :=
  match s with
  | String c t =>
      if cls c then
        match re_star cls (acc +:+ String c "") t k with
        | Some r => Some r
        | None => k acc s
        end
      else k acc s
  | EmptyString => k acc s
  end.

(** Greedy [C+]. *)
Definition re_plus (cls : ascii -> bool) (acc s : string)
           (k : string -> string -> option R) : option R :=
  match s with
  | String c t => if cls c then re_star cls (acc +:+ String c "") t k else None
  | EmptyString => None
  end.

(** Greedy [(\s+\S+)*]; every iteration consumes input, so [fuel] at
    least the length of [s] never runs out. *)
Fixpoint re_words (fuel : nat) (acc s : string)
         (k : string -> string -> option R) : option R :=
  match fuel with
  | O => k acc s
  | S fuel' =>
      match re_plus is_space acc s (fun acc1 s1 =>
              re_plus not_space acc1 s1 (fun acc2 s2 =>
                re_words fuel' acc2 s2 k)) with
      | Some r => Some r
      | None => k acc s
      end
  end.
End Matcher.

(** The end of the pattern, after group 1: [\s*$]. *)
Definition re_tail (group1 s3 : string) : option string :=
  re_star is_space "" s3 (fun _ s4 =>
    match s4 with
    | EmptyString => Some group1
    | String _ _ => None
    end).

(** The pattern of [outputErrors]: [^\s*], then capture group 1 around
    [\S*(\s+\S+)*], then [\s*$]. [exec_trim s] is the text of group 1
    when the pattern matches [s]. *)
Definition exec_trim (s : string) : option string :=
  re_star is_space "" s (fun _ s1 =>
    re_star not_space "" s1 (fun acc2 s2 =>
      re_words (String.length s2) acc2 s2 re_tail)).

(** [s.replace(pattern, "$1")] for that pattern: it is anchored at both
    ends, so a match covers all of [s] and the result is the capture;
    without a match the string is returned as it is. *)
Definition replace_trim (s : string) : string :=
  match exec_trim s with
  | Some group1 => group1
  | None => s
  end.

(* ================================================================== *)
(** * Report formatting *)
(* ================================================================== *)

(** An entry of a linter's [errors] array. *)
Record Finding := {
  line : Z;
  character : Z;
  reason : string;
  evidence : option string
}.

(** [out(s)]: [output.push(s + '\n')]. *)
Definition out (output : list string) (s : string) : list string :=
  output ++ [s +:+ nl].

(** The body of the [for] loop of [outputErrors], from index [i] on. *)
Fixpoint outputErrors_loop (errors : list (option Finding)) (showCode : bool)
         (output : list string) : list string :=
  match errors with
  | [] => output
  | e :: rest =>
      let output :=
        match e with
        | Some e =>
            let output :=
              out output ("Lint at line " +:+ number_to_string (line e)
                          +:+ " character " +:+ number_to_string (character e)
                          +:+ ": " +:+ reason e) in
            if showCode then
              out (out output (replace_trim (or_default (evidence e) ""))) ""
            else output
        | None => output
        end in
      outputErrors_loop rest showCode output
  end.

Definition outputErrors (errors : list (option Finding)) (showCode : bool) : string :=
  join (outputErrors_loop errors showCode []).

(* ================================================================== *)
(** * Values, exceptions and effects *)
(* ================================================================== *)

(** A value that a configuration can be: what [JSON.parse] produces, a
    number keeping its literal, or [undefined], which is what reading
    the property [cfg] of an object without one gives. *)
#[local] Unset Elimination Schemes.
Inductive json :=
| JUndefined
| JNull
| JBool (b : bool)
| JNumber (literal : string)
| JString (s : string)
| JArray (items : list json)
| JObject (members : list (string * json)).
#[local] Set Elimination Schemes.

(** The object literal [{}]. *)
Definition empty_object : json := JObject [].

(** A configuration object: [cfg_ref] is the identity of the object, fresh
    at every evaluation of an object literal or of [JSON.parse]; two
    configurations are the same object ([===]) when their [cfg_ref]
    agree. The value [undefined] has no identity: a configuration whose
    [cfg_val] is [JUndefined] carries the label of the read that found
    it, which tells nothing. *)
Record Config := { cfg_ref : nat; cfg_val : json }.

(** A thrown [Error]. *)
Record JsError := { name : string; message : string; stack : string }.

(** [Error.prototype.toString]. *)
Definition error_to_string (e : JsError) : string :=
  if String.eqb (name e) "" then message e
  else if String.eqb (message e) "" then name e
  else name e +:+ ": " +:+ message e.

Inductive outcome (A : Type) :=
| Ok (a : A)
| Throw (e : JsError).
Arguments Ok {A} a.
Arguments Throw {A} e.

(** What the process does to the outside, in order. [ConsoleLogStack]
    is the [console.log(stack)] of the [catch] block; the layout of the
    printed stack array is not modelled. *)
Inductive Event :=
| FsOpen (path : string) (flags : Z)
| FsFstat (fd : Z)
| FsReadFile (fd : Z)
| FsClose (fd : Z)
| JsonParse (text : string)
| ConsoleLog (text : string)
| ConsoleLogStack (err : JsError)
| ConsoleError (text : string).

(** [fs.Stats], the fields the script reads; [st_mtime] is
    [mtime.getTime()]. *)
Record Stats := { st_dev : Z; st_ino : Z; st_size : Z; st_mtime : Z }.

(** The file system as one call of the loader finds it. *)
Record FS := {
  openSync : string -> Z -> outcome Z;
  fstatSync : Z -> outcome Stats;
  readFileSync : Z -> outcome string;
  closeSync : Z -> outcome unit
}.

(** [C.O_RDONLY]. *)
Definition O_RDONLY : Z := 0.

(** A value of [_cache], as the script reads it: through its properties
    [cfg] and [stat]. An entry that the script made has both; a value
    that [_cache] inherits has neither, so its [cfg] is [undefined] and
    its [stat] is absent. *)
Record Entry := { cfg : Config; stat : option Stats }.

(** The globals of the script that requests read and write, with the
    identity of the next object to be created and the events so far.
    An [Entry] object is reachable through [_cache] only, so the map
    holds entries by value: the assignment [prev.stat = statbuf] is
    followed by [_cache[filePath] = prev]. The keys are the own
    properties of [_cache]; the properties that [_cache], an object
    literal, inherits from [Object.prototype] are [inherited_name]
    below. *)
Record Store := {
  _cache : gmap string Entry;
  next_ref : nat;
  events : list Event
}.

(** Computations over a state [S] that may throw. *)
Definition Exec (S A : Type) : Type := S -> outcome A * S.

Definition ret {S A} (a : A) : Exec S A := fun s => (Ok a, s).

Definition throw {S A} (e : JsError) : Exec S A := fun s => (Throw e, s).

Definition bind {S A B} (m : Exec S A) (f : A -> Exec S B) : Exec S B :=
  fun s =>
    match m s with
    | (Ok a, s') => f a s'
    | (Throw e, s') => (Throw e, s')
    end.

Declare Scope exec_scope.
Delimit Scope exec_scope with exec.
Notation "x <- m ;; k" := (bind m (fun x => k))
  (at level 100, m at next level, right associativity) : exec_scope.
Notation "m ;;; k" := (bind m (fun _ => k))
  (at level 100, right associativity) : exec_scope.
Open Scope exec_scope.

Definition gets {S A} (f : S -> A) : Exec S A := fun s => (Ok (f s), s).

Definition modify {S} (f : S -> S) : Exec S unit := fun s => (Ok tt, f s).

(** The result of a library call that may throw. *)
Definition lift {S A} (r : outcome A) : Exec S A := fun s => (r, s).

(** [try { body } catch (err) { handler }]. *)
Definition try_catch {S A} (body : Exec S A) (handler : JsError -> Exec S A)
  : Exec S A :=
  fun s =>
    match body s with
    | (Ok a, s') => (Ok a, s')
    | (Throw e, s') => handler e s'
    end.

(** [try { body } finally { final }], for a [final] block without
    [return]: it runs on both exits and only its own exception replaces
    the completion of [body]. *)
Definition try_finally {S A} (body : Exec S A) (final : Exec S unit)
  : Exec S A :=
  fun s =>
    match body s with
    | (r, s') =>
        match final s' with
        | (Ok _, s'') => (r, s'')
        | (Throw e, s'') => (Throw e, s'')
        end
    end.

(** States that contain the globals: the globals themselves, and the
    activation of a function with its local variables. *)
Class Globals (S : Type) := {
  get_store : S -> Store;
  set_store : Store -> S -> S
}.

#[export] Instance store_globals : Globals Store := {|
  get_store := fun st => st;
  set_store := fun st _ => st
|}.

(** The activation of [_refreshConfig]: the globals and [var fd]. *)
Record Frame := { globals : Store; fd : Z }.

#[export] Instance frame_globals : Globals Frame := {|
  get_store := globals;
  set_store := fun st f => {| globals := st; fd := fd f |}
|}.

Definition add_event (e : Event) (st : Store) : Store :=
  {| _cache := _cache st; next_ref := next_ref st; events := events st ++ [e] |}.

Definition emit {S} `{Globals S} (e : Event) : Exec S unit :=
  modify (fun s => set_store (add_event e (get_store s)) s).

(** A call into the runtime: the call is recorded, then it returns or
    throws. *)
Definition call {S A} `{Globals S} (e : Event) (r : outcome A) : Exec S A :=
  emit e ;;; lift r.

(** Evaluation of an expression that creates an object. *)
Definition new_object {S} `{Globals S} (v : json) : Exec S Config :=
  fun s =>
    let st := get_store s in
    (Ok {| cfg_ref := next_ref st; cfg_val := v |},
     set_store {| _cache := _cache st; next_ref := (next_ref st + 1)%nat;
                  events := events st |} s).

(** A block with [var fd = fd0] in scope. *)
Definition with_local {A} (fd0 : Z) (m : Exec Frame A) : Exec Store A :=
  fun st =>
    match m {| globals := st; fd := fd0 |} with
    | (r, f) => (r, globals f)
    end.

Definition set_fd (v : Z) : Exec Frame unit :=
  modify (fun f => {| globals := globals f; fd := v |}).

(* ================================================================== *)
(** * Comment stripping *)
(* ================================================================== *)

Definition is_char (a : ascii) (c : ascii) : bool := Ascii.eqb a c.

(** What follows the first [*/] of [s]. *)
Fixpoint after_close (s : string) : option string :=
  match s with
  | String c t =>
      match t with
      | String d t' =>
          if is_char "*" c && is_char "/" d then Some t' else after_close t
      | EmptyString => None
      end
  | EmptyString => None
  end.

(** Global replacement by [''] of the block-comment pattern: [/*], then
    as many characters as possible none of which starts [*/], then [*/].
    Where [/*] has no closing [*/] the pattern does not match and the
    scan moves on by one character. [fuel] is at least the length of
    [s]. *)
Fixpoint strip_block_comments (fuel : nat) (s : string) : string :=
  match fuel with
  | O => s
  | S fuel' =>
      match s with
      | String c t =>
          match t with
          | String d t' =>
              if is_char "/" c && is_char "*" d then
                match after_close t' with
                | Some rest => strip_block_comments fuel' rest
                | None => String c (strip_block_comments fuel' t)
                end
              else String c (strip_block_comments fuel' t)
          | EmptyString => s
          end
      | EmptyString => s
      end
  end.

(** The rest of [s] from its first LF or CR on. *)
Fixpoint skip_line (s : string) : string :=
  match s with
  | String c t => if is_char LF c || is_char CR c then s else skip_line t
  | EmptyString => s
  end.

(** Global replacement by [''] of [//] and what follows it on the line. *)
Fixpoint strip_line_comments (fuel : nat) (s : string) : string :=
  match fuel with
  | O => s
  | S fuel' =>
      match s with
      | String c t =>
          match t with
          | String d t' =>
              if is_char "/" c && is_char "/" d then
                strip_line_comments fuel' (skip_line t')
              else String c (strip_line_comments fuel' t)
          | EmptyString => s
          end
      | EmptyString => s
      end
  end.

Definition _removeJsComments (str : string) : string :=
  let str := or_default (Some str) "" in
  let str := strip_block_comments (String.length str) str in
  let str := strip_line_comments (String.length str) str in
  str.

(* ================================================================== *)
(** * The script *)
(* ================================================================== *)

(** The keys of [hinters]. *)
Inductive Mode := jshint | jslint | jshint_old.

Definition mode_name (m : Mode) : string :=
  match m with
  | jshint => "jshint"
  | jslint => "jslint"
  | jshint_old => "jshint_old"
  end.

(** What a call [hinters[mode](sourcedata, config)] leaves behind: its
    return value and the [errors] property of the linter. *)
Record LintRun := { passed : bool; errors : list (option Finding) }.

(** The fields of a parsed form. *)
Record Fields := {
  f_source : option string;
  f_filename : option string;
  f_mode : option string;
  f_showCode : option string;
  f_jshintrc : option string
}.

Record Request := { url : string; method : string }.

Record Response := {
  statusCode : Z;
  headers : list (string * string);
  body : string
}.

(** [_statChanged]: detect file changes without accessing content. *)
Definition _statChanged (s : Stats) (other : option Stats) : bool :=
  match other with
  | None => true
  | Some other =>
      negb (st_dev s =? st_dev other)
      || negb (st_ino s =? st_ino other)
      || negb (st_size s =? st_size other)
      || negb (st_mtime s =? st_mtime other)
  end.

(** [_cache[key] = e]. For every key but [__proto__] the assignment makes
    or replaces an own property. For [__proto__] it replaces the
    prototype of [_cache], which [_cache["__proto__"]] reads back, as the
    map does; that the keys [cfg] and [stat] resolve through that
    prototype from then on is left out. *)
Definition set_cache (key : string) (e : Entry) (st : Store) : Store :=
  {| _cache := <[key := e]> (_cache st);
     next_ref := next_ref st;
     events := events st |}.

(** The names of the properties of [Object.prototype]. [_cache] is an
    object literal and inherits them: [_cache[name]] is a function, or
    for [__proto__] the prototype itself, also when [_cache] has no own
    property of that name. *)
Definition Object_prototype_names : list string :=
  ["constructor"; "__defineGetter__"; "__defineSetter__"; "hasOwnProperty";
   "__lookupGetter__"; "__lookupSetter__"; "isPrototypeOf";
   "propertyIsEnumerable"; "toString"; "valueOf"; "__proto__";
   "toLocaleString"].

Definition inherited_name (key : string) : bool :=
  existsb (String.eqb key) Object_prototype_names.

(** Reading a property of [undefined]. *)
Definition type_error : JsError :=
  {| name := "TypeError";
     message := "Cannot read property 'cfg' of undefined";
     stack := "" |}.

Section Script.
(** [JSON.parse] and the three linters are outside the script. *)
Context (JSON_parse : string -> outcome json).
Context (hinters : Mode -> option string -> Config -> LintRun).

Definition lintify (mode : Mode) (sourcedata filename : option string)
           (showCode : bool) (config : Config) : string :=
  let run := hinters mode sourcedata config in
  if passed run then "js: No problems found in " +:+ to_string filename +:+ nl
  else outputErrors (errors run) showCode.

(** [_cache[filePath] || {cfg: {}, stat: null}]: the own property of
    that name; or else the value inherited under that name, which is
    truthy and has neither [cfg] nor [stat]; or else the new entry. The
    [undefined] of an inherited value takes a label like an object, so
    that the labels in the cache stay apart. *)
Definition cached_or_default (path : string) : Exec Store Entry :=
  cached <- gets (fun st => _cache st !! path) ;;
  match cached with
  | Some e => ret e
  | None =>
      if inherited_name path then
        c <- new_object JUndefined ;; ret {| cfg := c; stat := None |}
      else
        c <- new_object empty_object ;; ret {| cfg := c; stat := None |}
  end.

(** The [try] block of [_refreshConfig]. *)
Definition refresh_try (fs : FS) (path : string) (prev : Entry)
  : Exec Frame Entry :=
  fd' <- call (FsOpen path O_RDONLY) (openSync fs path O_RDONLY) ;;
  set_fd fd' ;;;
  fd' <- gets fd ;;
  statbuf <- call (FsFstat fd') (fstatSync fs fd') ;;
  if _statChanged statbuf (stat prev) then
    fd' <- gets fd ;;
    content <- call (FsReadFile fd') (readFileSync fs fd') ;;
    let text := _removeJsComments content in
    v <- call (JsonParse text) (JSON_parse text) ;;
    rc <- new_object v ;;
    emit (ConsoleLog ("Loading jshintrc: " +:+ path)) ;;;
    ret {| cfg := rc; stat := Some statbuf |}
  else
    (* prev.stat = statbuf; return prev *)
    ret {| cfg := cfg prev; stat := Some statbuf |}.

(** The [catch] block. *)
Definition refresh_catch (prev : Entry) (err : JsError) : Exec Frame Entry :=
  emit (ConsoleLogStack err) ;;;
  emit (ConsoleError ("Could not load jshintrc:" +:+ error_to_string err)) ;;;
  ret prev.

(** The [finally] block. *)
Definition refresh_finally (fs : FS) : Exec Frame unit :=
  fd' <- gets fd ;;
  if -1 <? fd' then
    try_catch (call (FsClose fd') (closeSync fs fd')) (fun _ => ret tt)
  else ret tt.

(** Try reading the hinter configuration file. Return config object
    and its [fs.Stats]. *)
Definition _refreshConfig (fs : FS) (filePath : option string)
  : Exec Store Entry :=
  if negb (truthy filePath) then
    c <- new_object empty_object ;; ret {| cfg := c; stat := None |}
  else
    let path := to_string filePath in
    prev <- cached_or_default path ;;
    with_local (-1)
      (try_finally
         (try_catch (refresh_try fs path prev) (refresh_catch prev))
         (refresh_finally fs)).

(** [_cache[filePath] = _refreshConfig(filePath);
    return _cache[filePath].cfg]; a property key is the string of the
    value used as key. *)
Definition _getConfig (fs : FS) (filePath : option string)
  : Exec Store Config :=
  e <- _refreshConfig fs filePath ;;
  modify (set_cache (to_string filePath) e) ;;;
  stored <- gets (fun st => _cache st !! to_string filePath) ;;
  match stored with
  | Some e => ret (cfg e)
  | None => throw type_error
  end.

(** The mode and the evidence switch that the form selects. *)
Definition select_mode (fields : Fields) : Mode :=
  if truthy (f_mode fields) && equals (f_mode fields) "jslint"
  then jslint else jshint.

Definition select_showCode (fields : Fields) : bool :=
  if truthy (f_showCode fields) && equals (f_showCode fields) "1"
  then true else false.

Definition text_plain (b : string) : Response :=
  {| statusCode := 200;
     headers := [("Content-Type", "text/plain")];
     body := b |}.

(** The callback of [form.parse]; [now] and [later] are the two
    readings of [new Date().getTime()]. *)
Definition on_form (fs : FS) (now later : Z) (fields : Fields)
  : Exec Store Response :=
  let mode := select_mode fields in
  let showCode := select_showCode fields in
  emit (ConsoleLog ("Applying '" +:+ mode_name mode +:+ "' to: "
                    +:+ or_default (f_filename fields) "anonymous")) ;;;
  config <- _getConfig fs (f_jshintrc fields) ;;
  let results :=
    lintify mode (f_source fields) (f_filename fields) showCode config in
  emit (ConsoleLog ("Took " +:+ number_to_string (later - now)
                    +:+ "ms to lint "
                    +:+ or_default (f_filename fields) "anonymous")) ;;;
  ret (text_plain results).

(** The callback of [http.createServer]; [fields] is what the form
    parser hands to [on_form] when the request is a check. *)
Definition on_request (fs : FS) (now later : Z) (req : Request)
           (fields : Fields) : Exec Store Response :=
  if String.eqb (url req) "/check"
     && String.eqb (toUpperCase (method req)) "POST"
  then on_form fs now later fields
  else ret (text_plain "hello from jshint-mode").
End Script.

(* ================================================================== *)
(** * The listener *)
(* ================================================================== *)

(** A JavaScript value that is a string or a number; a string stands
    for itself. *)
Inductive Primitive :=
| PString (s : string)
| PNumber (n : Z).
Coercion PString : string >-> Primitive.

(** [v === s] for a string [s]: no conversion takes place, and a number
    is never equal to a string. *)
Definition strict_equals (v : Primitive) (s : string) : bool :=
  match v with
  | PString t => String.eqb t s
  | PNumber _ => false
  end.

(** The error of a failed [listen]. [code] is the symbolic name of the
    failure, [EADDRINUSE] for an address in use. [errno] depends on the
    runtime: Node up to version 12 puts the same name there, later
    versions the negative number of the system error. *)
Record ListenError := { errno : Primitive; code : string; syscall : string }.

Inductive ProcEvent :=
| Listen (port : Z) (host : string)
| Stdout (text : string)
| Stderr (text : string)
| ProcessExit (status : Z).

Inductive Status :=
| Binding            (* a [listen] call awaits its outcome *)
| Listening
| Exited (status : Z)
| Unbound.           (* an error left without reaction *)

(** The globals [port], [lastPort] and [host], and what the process has
    done so far. *)
Record Listener := {
  port : Z;
  lastPort : Z;
  host : string;
  status : Status;
  history : list ProcEvent
}.

(** [server.listen(port, host)] for a port from 0 to 65535, the ports
    that the runtime accepts. *)
Definition listen (l : Listener) : Listener :=
  {| port := port l; lastPort := lastPort l; host := host l;
     status := Binding;
     history := history l ++ [Listen (port l) (host l)] |}.

(** [server.on('listening', ...)]. *)
Definition on_listening (l : Listener) : Listener :=
  {| port := port l; lastPort := lastPort l; host := host l;
     status := Listening;
     history := history l ++
       [Stdout ("Started JSHint server at http://" +:+ host l +:+ ":"
                +:+ number_to_string (port l) +:+ "." +:+ nl)] |}.

(** [server.on('error', ...)]; [console.error] joins its two arguments
    with a space. *)
Definition on_error (err : ListenError) (l : Listener) : Listener :=
  if strict_equals (errno err) "EADDRINUSE" then
    if port l >=? lastPort l then
      {| port := port l; lastPort := lastPort l; host := host l;
         status := Exited 2;
         history := history l ++
           [Stderr ("Error occurred during '" +:+ syscall err +:+ "':"
                    +:+ " " +:+ code err +:+ nl);
            ProcessExit 2] |}
    else
      (* find the next available port *)
      listen {| port := port l + 1; lastPort := lastPort l; host := host l;
                status := status l; history := history l |}
  else
    {| port := port l; lastPort := lastPort l; host := host l;
       status := Unbound; history := history l |}.

(** The last statement of the script. *)
Definition start (port0 lastPort0 : Z) (host0 : string) : Listener :=
  listen {| port := port0; lastPort := lastPort0; host := host0;
            status := Unbound; history := [] |}.

(** One turn of the event loop: the pending [listen] completes and the
    server emits ['listening'] or ['error']. [net p h] is the error, if
    any, of binding [h:p]. *)
Definition step (net : Z -> string -> option ListenError) (l : Listener)
  : Listener :=
  match status l with
  | Binding =>
      match net (port l) (host l) with
      | None => on_listening l
      | Some err => on_error err l
      end
  | _ => l
  end.

Fixpoint run (net : Z -> string -> option ListenError) (n : nat)
         (l : Listener) : Listener :=
  match n with
  | O => l
  | S n' => run net n' (step net l)
  end.

(** The ports passed to [listen], in order. *)
Fixpoint bind_attempts (h : list ProcEvent) : list Z :=
  match h with
  | [] => []
  | Listen p _ :: rest => p :: bind_attempts rest
  | _ :: rest => bind_attempts rest
  end.

(* ================================================================== *)
(** * Sample surroundings *)
(* ================================================================== *)

(** The insignificant whitespace of JSON: TAB, LF, CR and SPACE. *)
Definition json_space (c : ascii) : bool :=
  let n := N_of_ascii c in
  ((n =? 9) || (n =? 10) || (n =? 13) || (n =? 32))%N.

Fixpoint without_json_space (s : string) : string :=
  match s with
  | EmptyString => EmptyString
  | String c t =>
      if json_space c then without_json_space t
      else String c (without_json_space t)
  end.

(** [JSON.parse] on the texts of the samples: a pair of braces, with
    whitespace anywhere, is an empty object; the other sample texts are
    not JSON and are refused with a [SyntaxError]. *)
Definition sample_parse (text : string) : outcome json :=
  if String.eqb (without_json_space text) "{}" then Ok empty_object
  else Throw {| name := "SyntaxError";
                message := "Unexpected token in JSON";
                stack := "SyntaxError: Unexpected token in JSON" |}.

Definition sample_stat : Stats :=
  {| st_dev := 2049; st_ino := 131; st_size := 4; st_mtime := 1500000000000 |}.

(** The same file after an edit. *)
Definition edited_stat : Stats :=
  {| st_dev := 2049; st_ino := 131; st_size := 4; st_mtime := 1500000060000 |}.

(** A file system in which every path opens as descriptor 7, has the
    metadata [s] and holds [content]. *)
Definition fs_with (s : Stats) (content : string) : FS :=
  {| openSync := fun _ _ => Ok 7;
     fstatSync := fun _ => Ok s;
     readFileSync := fun _ => Ok content;
     closeSync := fun _ => Ok tt |}.

Definition sample_fs (content : string) : FS := fs_with sample_stat content.

Definition enoent : JsError :=
  {| name := "Error";
     message := "ENOENT, no such file or directory";
     stack := "Error: ENOENT, no such file or directory" |}.

(** A file system without files. *)
Definition empty_fs : FS :=
  {| openSync := fun _ _ => Throw enoent;
     fstatSync := fun _ => Throw enoent;
     readFileSync := fun _ => Throw enoent;
     closeSync := fun _ => Throw enoent |}.

Definition initial_store : Store :=
  {| _cache := ∅; next_ref := 0; events := [] |}.

(** The store after a first call that loaded a well-formed file, and
    after a first call that met a malformed one. *)
Definition loaded_store : Store :=
  snd (_getConfig sample_parse (sample_fs "{}") (Some ".jshintrc") initial_store).


Definition sample_finding : Finding :=
  {| line := 3; character := 5; reason := "Missing semicolon.";
     evidence := Some " foo() " |}.

Definition bare_finding : Finding :=
  {| line := 3; character := 5; reason := "Missing semicolon.";
     evidence := None |}.

(** Linters that report [sample_finding] for every source but the empty
    one. *)
Definition sample_hinters (_ : Mode) (source : option string) (_ : Config)
  : LintRun :=
  if truthy source then {| passed := false; errors := [Some sample_finding; None] |}
  else {| passed := true; errors := [] |}.

(** Linters that fail with a finding without evidence between two falsy
    slots. *)
Definition bare_hinters (_ : Mode) (_ : option string) (_ : Config) : LintRun :=
  {| passed := false; errors := [None; Some bare_finding; None] |}.

Definition sample_config : Config := {| cfg_ref := 0; cfg_val := empty_object |}.

Definition sample_fields : Fields :=
  {| f_source := Some "foo()"; f_filename := Some "my.js";
     f_mode := None; f_showCode := Some "1"; f_jshintrc := None |}.

(** The error of a taken port as Node up to version 12 reports it:
    [errno] is the name of the failure, as [code] is. *)
Definition eaddrinuse : ListenError :=
  {| errno := "EADDRINUSE"; code := "EADDRINUSE"; syscall := "listen" |}.

(** A host on which the ports below [free] are taken. *)
Definition taken_below (free : Z) (p : Z) (_ : string) : option ListenError :=
  if p <? free then Some eaddrinuse else None.

(** The error of a taken port as Node from version 13 reports it on
    Linux: [code] names the failure and [errno] is the number of the
    system error with a minus sign. *)
Definition eaddrinuse_number : ListenError :=
  {| errno := PNumber (-98); code := "EADDRINUSE"; syscall := "listen" |}.

(** The same host seen through such a runtime. *)
Definition taken_below_number (free : Z) (p : Z) (_ : string)
  : option ListenError :=
  if p <? free then Some eaddrinuse_number else None.

(* ================================================================== *)
(** * Vocabulary of the specification *)
(* ================================================================== *)

(** The longest prefix of [s] in the class, and what follows it. *)
Fixpoint take_while (cls : ascii -> bool) (s : string) : string :=
  match s with
  | String c t => if cls c then String c (take_while cls t) else EmptyString
  | EmptyString => EmptyString
  end.

Fixpoint drop_while (cls : ascii -> bool) (s : string) : string :=
  match s with
  | String c t => if cls c then drop_while cls t else s
  | EmptyString => EmptyString
  end.

Fixpoint all_chars (cls : ascii -> bool) (s : string) : bool :=
  match s with
  | String c t => cls c && all_chars cls t
  | EmptyString => true
  end.

Definition starts_with_space (s : string) : bool :=
  match s with
  | String c _ => is_space c
  | EmptyString => false
  end.

Fixpoint ends_with_space (s : string) : bool :=
  match s with
  | String c EmptyString => is_space c
  | String _ t => ends_with_space t
  | EmptyString => false
  end.

(** [s] without its leading whitespace. *)
Definition lstrip (s : string) : string := drop_while is_space s.

(** [s] without its trailing whitespace. *)
Fixpoint rstrip (s : string) : string :=
  match s with
  | String c t =>
      match rstrip t with
      | EmptyString => if is_space c then EmptyString else String c EmptyString
      | r => String c r
      end
  | EmptyString => EmptyString
  end.

(** Leading and trailing whitespace removed. *)
Definition strip_whitespace (s : string) : string := rstrip (lstrip s).

(** [t] is [s] with its leading and trailing whitespace removed: [s] is
    whitespace, [t], whitespace, and [t] neither starts nor ends with
    whitespace. *)
Definition is_trim_of (s t : string) : Prop :=
  exists l r,
    s = l +:+ t +:+ r
    /\ all_chars is_space l = true
    /\ all_chars is_space r = true
    /\ starts_with_space t = false
    /\ ends_with_space t = false.

(** The truthy slots of a findings array, in order. *)
Fixpoint truthy_findings (errors : list (option Finding)) : list Finding :=
  match errors with
  | [] => []
  | Some f :: rest => f :: truthy_findings rest
  | None :: rest => truthy_findings rest
  end.

(** The line that reports a finding, without its terminator. *)
Definition finding_line (f : Finding) : string :=
  "Lint at line " +:+ number_to_string (line f)
  +:+ " character " +:+ number_to_string (character f)
  +:+ ": " +:+ reason f.

(** The block of a finding as the specification words it. *)
Definition finding_block (showCode : bool) (f : Finding) : string :=
  finding_line f +:+ nl
  +:+ (if showCode
       then strip_whitespace (or_default (evidence f) "") +:+ nl +:+ nl
       else "").

(** The metadata snapshot stored for a path, if any. *)
Definition stored_stat (st : Store) (path : string) : option Stats :=
  match _cache st !! path with
  | Some e => stat e
  | None => None
  end.


(** The failure, if any, that loading the file at [path] meets when the
    stored snapshot is [old]: the file does not open, its metadata or
    its content cannot be read, or its content without comments is not
    JSON. *)
Definition load_failure (JSON_parse : string -> outcome json) (fs : FS)
           (path : string) (old : option Stats) : option JsError :=
  match openSync fs path O_RDONLY with
  | Throw e => Some e
  | Ok d =>
      match fstatSync fs d with
      | Throw e => Some e
      | Ok s =>
          if _statChanged s old then
            match readFileSync fs d with
            | Throw e => Some e
            | Ok content =>
                match JSON_parse (_removeJsComments content) with
                | Throw e => Some e
                | Ok _ => None
                end
            end
          else None
      end
  end.

(** The entry that a call for [path] starts from: the cached one; or
    the value inherited under that name, without configuration and
    snapshot; or a new entry with an empty configuration and no
    snapshot. *)
Definition prev_entry (st : Store) (path : string) : Entry :=
  match _cache st !! path with
  | Some e => e
  | None =>
      {| cfg := {| cfg_ref := next_ref st;
                   cfg_val := if inherited_name path then JUndefined
                              else empty_object |};
         stat := None |}
  end.

(** The identity of the next object once that entry exists. *)
Definition prev_next_ref (st : Store) (path : string) : nat :=
  match _cache st !! path with
  | Some _ => next_ref st
  | None => (next_ref st + 1)%nat
  end.

(** The result of a call for a path, and the state it leaves. *)
Definition finish (st : Store) (path : string) (entry : Entry) (n : nat)
           (evs : list Event) : outcome Config * Store :=
  (Ok (cfg entry),
   {| _cache := <[path := entry]> (_cache st);
      next_ref := n;
      events := events st ++ evs |}).

(** What the [catch] block prints for an error. *)
Definition failure_events (err : JsError) : list Event :=
  [ConsoleLogStack err;
   ConsoleError ("Could not load jshintrc:" +:+ error_to_string err)].

(** What the [finally] block does for the value [d] of [fd]. *)
Definition close_events (d : Z) : list Event :=
  if -1 <? d then [FsClose d] else [].


Definition is_open (e : Event) : bool :=
  match e with FsOpen _ _ => true | _ => false end.

Definition is_close (e : Event) : bool :=
  match e with FsClose _ => true | _ => false end.

Definition is_read (e : Event) : bool :=
  match e with FsReadFile _ => true | _ => false end.

Definition is_parse (e : Event) : bool :=
  match e with JsonParse _ => true | _ => false end.

(** The message of the [listening] handler for a host and a port. *)
Definition started_line (h : string) (p : Z) : string :=
  "Started JSHint server at http://" +:+ h +:+ ":" +:+ number_to_string p
  +:+ "." +:+ nl.

(** What every state of a run satisfies: the first [listen] was on the
    starting port and every later one on a port up to [lastPort]. *)
Definition attempts_bounded (p0 lp : Z) (l : Listener) : Prop :=
  lastPort l = lp
  /\ exists rest,
       bind_attempts (history l) = p0 :: rest
       /\ Forall (fun p => p <= lp) rest.

(** What every state of a run satisfies: a pending [listen] is the last
    event and is on the current port; once listening, the last two
    events are the [listen] on the current port, which the network
    accepted, and the line that announces it. *)
Definition announces_port (net : Z -> string -> option ListenError)
           (h : string) (l : Listener) : Prop :=
  host l = h
  /\ match status l with
     | Binding => exists pre, history l = pre ++ [Listen (port l) h]
     | Listening =>
         net (port l) h = None
         /\ exists pre,
              history l
              = pre ++ [Listen (port l) h; Stdout (started_line h (port l))]
     | _ => True
     end.

(* ================================================================== *)
(** * The command line *)
(* ================================================================== *)

(** What [getOpt] returns: [false], [undefined] or a string. *)
Inductive OptValue :=
| OptFalse
| OptUndefined
| OptString (s : string).

(** [argv.indexOf(key)], counting from [i]. *)
Fixpoint indexOf_from (argv : list string) (key : string) (i : Z) : Z :=
  match argv with
  | [] => -1
  | a :: rest =>
      if String.eqb a key then i else indexOf_from rest key (i + 1)
  end.

Definition indexOf (argv : list string) (key : string) : Z :=
  indexOf_from argv key 0.

(** [argv[i]]. *)
Definition argv_at (argv : list string) (i : Z) : OptValue :=
  if i <? 0 then OptUndefined
  else match argv !! Z.to_nat i with
       | Some s => OptString s
       | None => OptUndefined
       end.

Definition getOpt (argv : list string) (key : string) : OptValue :=
  let index := indexOf argv key in
  if negb (index =? -1) then argv_at argv (index + 1) else OptFalse.

(** [ToString] of such a value. *)
Definition opt_to_string (v : OptValue) : string :=
  match v with
  | OptFalse => "false"
  | OptUndefined => "undefined"
  | OptString s => s
  end.

Definition is_digit (c : ascii) : bool :=
  let n := N_of_ascii c in ((48 <=? n) && (n <=? 57))%N.

(** [parseInt(v, 10)]: leading whitespace is skipped, a sign is read,
    then the longest run of decimal digits; [None] is [NaN], the result
    without digits. The integer is the Number itself for magnitudes
    below 2^53. *)
Definition parseInt (v : OptValue) : option Z :=
  let s := lstrip (opt_to_string v) in
  let signed :=
    match s with
    | String c t =>
        if is_char "-" c then (-1, t)
        else if is_char "+" c then (1, t)
        else (1, s)
    | EmptyString => (1, s)
    end in
  let digits := take_while is_digit (snd signed) in
  match digits with
  | EmptyString => None
  | String _ _ =>
      match NilEmpty.uint_of_string digits with
      | Some d => Some (fst signed * Z.of_uint d)
      | None => None
      end
  end.

(** [n || d] for a number [n]: [NaN] and zero are falsy. *)
Definition number_or (n : option Z) (d : Z) : Z :=
  match n with
  | Some v => if v =? 0 then d else v
  | None => d
  end.

(** [v || d] for a value of [getOpt]. *)
Definition opt_or (v : OptValue) (d : string) : string :=
  match v with
  | OptString s => if String.eqb s "" then d else s
  | _ => d
  end.

(** The globals [port], [lastPort] and [host] as the script initialises
    them, and its last statement. *)
Definition boot (argv : list string) : Listener :=
  let port := number_or (parseInt (getOpt argv "--port")) 3003 in
  let lastPort := number_or (parseInt (getOpt argv "--lastport")) 3003 in
  let host := opt_or (getOpt argv "--host") "127.0.0.1" in
  start port lastPort host.

(* ================================================================== *)
(** * Further vocabulary *)
(* ================================================================== *)

(** [s] is empty or starts with a character that is neither whitespace,
    nor a sign, nor a digit: no numeral can be read from it. *)
Definition starts_without_numeral (s : string) : bool :=
  match s with
  | String c _ =>
      negb (is_space c || is_char "-" c || is_char "+" c || is_digit c)
  | EmptyString => true
  end.

(** [s] is empty or starts with a character that is no digit. *)
Definition ends_numeral (s : string) : bool :=
  match s with
  | String c _ => negb (is_digit c)
  | EmptyString => true
  end.



(** [a] immediately followed by [b] occurs in [s]. *)
Fixpoint has_pair (a b : ascii) (s : string) : bool :=
  match s with
  | String c t =>
      match t with
      | String d _ => (is_char a c && is_char b d) || has_pair a b t
      | EmptyString => false
      end
  | EmptyString => false
  end.

Definition is_line_end (c : ascii) : bool := is_char LF c || is_char CR c.

Definition not_slash (c : ascii) : bool := negb (is_char "/" c).

Definition not_line_end (c : ascii) : bool := negb (is_line_end c).

(** [s] is empty or starts with a line end. *)
Definition ends_line (s : string) : bool :=
  match s with
  | String e _ => is_line_end e
  | EmptyString => true
  end.



(** The lines written to stdout, in order. *)
Fixpoint stdout_lines (h : list ProcEvent) : list string :=
  match h with
  | [] => []
  | Stdout text :: rest => text :: stdout_lines rest
  | _ :: rest => stdout_lines rest
  end.

(** Binding [h:p] fails with an error whose [errno] is the string
    [EADDRINUSE]: an address in use as Node up to version 12 reports
    it, and as the handler recognises it. *)
Definition in_use (net : Z -> string -> option ListenError) (h : string)
           (p : Z) : Prop :=
  exists err, net p h = Some err /\ errno err = "EADDRINUSE".

(** What every state of a run satisfies about the ports tried: all but a
    pending one were in use, and an exit has status 2 with the port at
    or beyond [lastPort]. *)
Definition tried_ports_in_use (net : Z -> string -> option ListenError)
           (h : string) (l : Listener) : Prop :=
  host l = h
  /\ match status l with
     | Binding =>
         exists pre,
           bind_attempts (history l) = pre ++ [port l]
           /\ Forall (in_use net h) pre
     | Exited c =>
         c = 2 /\ lastPort l <= port l
         /\ Forall (in_use net h) (bind_attempts (history l))
     | _ => True
     end.

(** What every state of a run satisfies about stdout: empty until the
    server listens, then the one line that announces the port. *)
Definition stdout_announces (l : Listener) : Prop :=
  stdout_lines (history l)
  = match status l with
    | Listening => [started_line (host l) (port l)]
    | _ => []
    end.

(** What every state of a run from [p0] with [lastPort] [lp] and host
    [h] satisfies about its globals. *)
Definition globals_in_range (p0 lp : Z) (h : string) (l : Listener) : Prop :=
  lastPort l = lp /\ host l = h /\ p0 <= port l <= Z.max p0 lp.

(** A port that [server.listen] accepts; for any other it throws a
    [RangeError]. *)
Definition valid_port (p : Z) : bool := (0 <=? p) && (p <=? 65535).

(** The starting port and its [k] successors, in order. *)
Definition ports_from (p0 : Z) (k : nat) : list Z :=
  List.map (fun i => p0 + Z.of_nat i) (seq 0 (S k)).

(** What every state of a run from [p0] satisfies about the ports passed
    to [listen]: they are the starting port and its successors up to the
    current port, in order. *)
Definition attempts_consecutive (p0 : Z) (l : Listener) : Prop :=
  exists k : nat,
    port l = p0 + Z.of_nat k
    /\ bind_attempts (history l) = ports_from p0 k.

(** Two file systems that differ at most in comments of the file
    content. *)
Definition same_up_to_comments (fs1 fs2 : FS) (path : string) : Prop :=
  openSync fs1 path O_RDONLY = openSync fs2 path O_RDONLY
  /\ (forall d, fstatSync fs1 d = fstatSync fs2 d)
  /\ (forall d,
        match readFileSync fs1 d, readFileSync fs2 d with
        | Ok c1, Ok c2 => _removeJsComments c1 = _removeJsComments c2
        | Throw e1, Throw e2 => e1 = e2
        | _, _ => False
        end).

(* ================================================================== *)
(** * Strings *)
(* ================================================================== *)

Lemma app_cons (c : ascii) (s t : string) :
  String c s +:+ t = String c (s +:+ t).
Proof. reflexivity. Qed.

Lemma app_empty_l (s : string) : "" +:+ s = s.
Proof. reflexivity. Qed.

Lemma app_empty_r (s : string) : s +:+ "" = s.
Proof.
  induction s as [|c s IH]; [reflexivity |].
  now rewrite app_cons, IH.
Qed.

Lemma app_assoc3 (a b c : string) : (a +:+ b) +:+ c = a +:+ b +:+ c.
Proof.
  induction a as [|x a IH]; [reflexivity |].
  now rewrite !app_cons, IH.
Qed.

Lemma app_snoc (a : string) (c : ascii) (b : string) :
  (a +:+ String c "") +:+ b = a +:+ String c b.
Proof. now rewrite app_assoc3. Qed.

Lemma take_drop_while (cls : ascii -> bool) (s : string) :
  take_while cls s +:+ drop_while cls s = s.
Proof.
  induction s as [|c s IH]; simpl; [reflexivity |].
  destruct (cls c); [now rewrite app_cons, IH | reflexivity].
Qed.

Lemma all_take_while (cls : ascii -> bool) (s : string) :
  all_chars cls (take_while cls s) = true.
Proof.
  induction s as [|c s IH]; simpl; [reflexivity |].
  destruct (cls c) eqn:E; simpl; [now rewrite E | reflexivity].
Qed.

Lemma drop_while_length (cls : ascii -> bool) (s : string) :
  (String.length (drop_while cls s) <= String.length s)%nat.
Proof.
  induction s as [|c s IH]; simpl; [lia |].
  destruct (cls c); simpl; lia.
Qed.

(** What follows the longest prefix in a class is empty or starts outside
    the class. *)
Lemma drop_while_head (cls : ascii -> bool) (s : string) :
  match drop_while cls s with
  | String c _ => cls c = false
  | EmptyString => True
  end.
Proof.
  induction s as [|c s IH]; simpl; [exact I |].
  destruct (cls c) eqn:E; [exact IH | simpl; exact E].
Qed.

Lemma drop_while_empty_all (cls : ascii -> bool) (s : string) :
  drop_while cls s = "" -> all_chars cls s = true.
Proof.
  induction s as [|c s IH]; simpl; [reflexivity |].
  destruct (cls c); [exact IH | discriminate].
Qed.

Lemma drop_while_all (cls : ascii -> bool) (s : string) :
  all_chars cls s = true -> drop_while cls s = "".
Proof.
  induction s as [|c s IH]; simpl; [reflexivity |].
  destruct (cls c); simpl; [exact IH | discriminate].
Qed.

Lemma rstrip_all_space (s : string) :
  all_chars is_space s = true -> rstrip s = "".
Proof.
  induction s as [|c s IH]; simpl; [reflexivity |].
  intros H. apply andb_prop in H as [Hc Hs].
  now rewrite (IH Hs), Hc.
Qed.

Lemma rstrip_cons_nonspace (c : ascii) (s : string) :
  is_space c = false -> rstrip (String c s) = String c (rstrip s).
Proof. intros H. simpl. rewrite H. now destruct (rstrip s). Qed.

Lemma rstrip_cons_nonempty (c : ascii) (s : string) :
  rstrip s <> "" -> rstrip (String c s) = String c (rstrip s).
Proof. intros H. simpl. destruct (rstrip s); [contradiction | reflexivity]. Qed.

Lemma rstrip_app (a b : string) :
  rstrip b <> "" -> rstrip (a +:+ b) = a +:+ rstrip b.
Proof.
  intros H. induction a as [|x a IH]; [reflexivity |].
  rewrite !app_cons, rstrip_cons_nonempty; [now rewrite IH |].
  rewrite IH. destruct a; [exact H | discriminate].
Qed.

Lemma rstrip_nonspace_app (n s : string) :
  all_chars not_space n = true -> rstrip (n +:+ s) = n +:+ rstrip s.
Proof.
  induction n as [|x n IH]; [reflexivity |].
  intros H. simpl in H. apply andb_prop in H as [Hx Hn].
  rewrite !app_cons, rstrip_cons_nonspace, (IH Hn); [reflexivity |].
  unfold not_space in Hx. now destruct (is_space x).
Qed.

(** A string is its [rstrip] followed by whitespace. *)
Lemma rstrip_split (s : string) :
  exists r, s = rstrip s +:+ r /\ all_chars is_space r = true.
Proof.
  induction s as [|c s [r [Hs Hr]]]; [now exists "" |].
  simpl. destruct (rstrip s) eqn:E.
  - destruct (is_space c) eqn:Hc.
    + exists (String c s). split; [reflexivity |].
      simpl. rewrite Hc. simpl. rewrite Hs. exact Hr.
    + exists s. split; [reflexivity |]. rewrite Hs. exact Hr.
  - exists r. split; [| exact Hr].
    rewrite app_cons. f_equal. exact Hs.
Qed.

Lemma rstrip_no_trailing_space (s : string) : ends_with_space (rstrip s) = false.
Proof.
  induction s as [|c s IH]; [reflexivity |].
  simpl. destruct (rstrip s) eqn:E.
  - destruct (is_space c) eqn:Hc; simpl; [reflexivity | exact Hc].
  - exact IH.
Qed.

Lemma rstrip_keeps_head (s : string) :
  starts_with_space s = false -> starts_with_space (rstrip s) = false.
Proof.
  destruct s as [|c s]; [reflexivity |].
  simpl. intros Hc. rewrite Hc. now destruct (rstrip s); simpl.
Qed.

Lemma lstrip_no_leading_space (s : string) : starts_with_space (lstrip s) = false.
Proof.
  unfold lstrip. pose proof (drop_while_head is_space s) as H.
  destruct (drop_while is_space s); [reflexivity | exact H].
Qed.

(** [strip_whitespace] removes exactly the whitespace at both ends. *)
Lemma strip_whitespace_spec (s : string) : is_trim_of s (strip_whitespace s).
Proof.
  unfold is_trim_of, strip_whitespace.
  destruct (rstrip_split (lstrip s)) as [r [Hs Hr]].
  exists (take_while is_space s), r. repeat split.
  - rewrite <- Hs. unfold lstrip. symmetry. apply take_drop_while.
  - apply all_take_while.
  - exact Hr.
  - apply rstrip_keeps_head, lstrip_no_leading_space.
  - apply rstrip_no_trailing_space.
Qed.

Lemma lstrip_space_app (l x : string) :
  all_chars is_space l = true -> lstrip (l +:+ x) = lstrip x.
Proof.
  induction l as [|c l IH]; [reflexivity |].
  intros H. simpl in H. apply andb_prop in H as [Hc Hl].
  rewrite app_cons. unfold lstrip. simpl. rewrite Hc. now apply IH.
Qed.

Lemma lstrip_id (s : string) : starts_with_space s = false -> lstrip s = s.
Proof.
  destruct s as [|c s]; [reflexivity |].
  unfold lstrip. simpl. now intros ->.
Qed.

Lemma rstrip_app_space (t r : string) :
  ends_with_space t = false -> all_chars is_space r = true ->
  rstrip (t +:+ r) = t.
Proof.
  intros Ht Hr. induction t as [|c t IH].
  - now apply rstrip_all_space.
  - rewrite app_cons. destruct t as [|d t].
    + simpl in Ht. rewrite app_empty_l.
      rewrite rstrip_cons_nonspace by exact Ht.
      now rewrite (rstrip_all_space _ Hr).
    + rewrite rstrip_cons_nonempty; rewrite IH by exact Ht;
        [reflexivity | discriminate].
Qed.

(** Only one string is the trim of a given one. *)
Lemma is_trim_of_unique (s t : string) :
  is_trim_of s t -> t = strip_whitespace s.
Proof.
  intros [l [r [-> [Hl [Hr [Hhead Htail]]]]]].
  unfold strip_whitespace. rewrite (lstrip_space_app _ _ Hl).
  destruct t as [|c t].
  - rewrite app_empty_l. unfold lstrip.
    now rewrite (drop_while_all _ _ Hr).
  - rewrite lstrip_id by (rewrite app_cons; exact Hhead).
    symmetry. now apply rstrip_app_space.
Qed.

(* ------------------------------------------------------------------ *)
(** ** The matcher on the pattern of [outputErrors] *)
(* ------------------------------------------------------------------ *)

Section MatcherFacts.
Context {R : Type}.
Implicit Types (k : string -> string -> option R).

(** The longest run is tried first: when the continuation accepts after
    it, that is the match. *)
Lemma re_star_greedy cls s acc k r :
  k (acc +:+ take_while cls s) (drop_while cls s) = Some r ->
  re_star cls acc s k = Some r.
Proof.
  revert acc. induction s as [|c s IH]; intros acc H; simpl in *.
  - now rewrite app_empty_r in H.
  - destruct (cls c) eqn:E.
    + rewrite (IH (acc +:+ String c "")); [reflexivity |].
      now rewrite app_snoc.
    + now rewrite app_empty_r in H.
Qed.

(** Inside a run of the class, a continuation that refuses every rest
    of the run makes the star fail. *)
Lemma re_star_none cls s acc k :
  all_chars cls s = true ->
  (forall acc' s', all_chars cls s' = true -> k acc' s' = None) ->
  re_star cls acc s k = None.
Proof.
  revert acc. induction s as [|c s IH]; intros acc Hs Hk; simpl in *.
  - now apply Hk.
  - apply andb_prop in Hs as [Hc Hs]. rewrite Hc.
    rewrite (IH _ Hs Hk). apply Hk. simpl. now rewrite Hc, Hs.
Qed.

Lemma re_plus_greedy cls c s acc k r :
  cls c = true ->
  k (acc +:+ String c (take_while cls s)) (drop_while cls s) = Some r ->
  re_plus cls acc (String c s) k = Some r.
Proof.
  intros Hc H. unfold re_plus. rewrite Hc.
  apply re_star_greedy. now rewrite app_snoc.
Qed.

(** Whitespace alone holds no word: an iteration of the word group
    fails on it. *)
Lemma re_word_none s acc k :
  all_chars is_space s = true ->
  re_plus is_space acc s (fun acc1 s1 => re_plus not_space acc1 s1 k) = None.
Proof.
  intros Hs. destruct s as [|c s]; [reflexivity |].
  simpl in Hs. apply andb_prop in Hs as [Hc Hs].
  unfold re_plus at 1. rewrite Hc.
  apply re_star_none; [exact Hs |].
  intros acc' s' Hs'. destruct s' as [|d s']; [reflexivity |].
  simpl in Hs'. apply andb_prop in Hs' as [Hd _].
  unfold re_plus, not_space. now rewrite Hd.
Qed.
End MatcherFacts.

Lemma re_tail_all_space (group1 s : string) :
  all_chars is_space s = true -> re_tail group1 s = Some group1.
Proof.
  intros H. unfold re_tail. apply re_star_greedy.
  now rewrite (drop_while_all _ _ H).
Qed.

(** From a point between words the word group takes every further word
    and leaves the trailing whitespace. *)
Lemma re_words_rstrip (fuel : nat) :
  forall s acc,
    (String.length s <= fuel)%nat ->
    starts_with_space s = true \/ s = "" ->
    re_words fuel acc s re_tail = Some (acc +:+ rstrip s).
Proof.
  induction fuel as [|fuel IH]; intros s acc Hlen Hhead.
  - destruct s; [| simpl in Hlen; lia].
    simpl. rewrite app_empty_r. now apply re_tail_all_space.
  - destruct s as [|c t].
    + simpl. rewrite app_empty_r. now apply re_tail_all_space.
    + destruct Hhead as [Hc | Hc]; [| discriminate]. simpl in Hc.
      pose proof (take_drop_while is_space t) as Ht.
      pose proof (drop_while_head is_space t) as Hd.
      pose proof (drop_while_length is_space t) as Hl.
      destruct (drop_while is_space t) as [|d u] eqn:E.
      * (* only whitespace is left *)
        assert (Hall : all_chars is_space (String c t) = true).
        { simpl. rewrite Hc. now apply drop_while_empty_all. }
        cbn [re_words]. rewrite (re_word_none _ _ _ Hall).
        rewrite (rstrip_all_space _ Hall), app_empty_r.
        now apply re_tail_all_space.
      * (* a word follows *)
        pose proof (take_drop_while not_space u) as Hu.
        pose proof (drop_while_head not_space u) as Hd2.
        pose proof (drop_while_length not_space u) as Hl2.
        assert (Hnd : not_space d = true) by (unfold not_space; now rewrite Hd).
        assert (Hru : rstrip u
                      = take_while not_space u
                        +:+ rstrip (drop_while not_space u)).
        { rewrite <- rstrip_nonspace_app by apply all_take_while.
          now rewrite Hu. }
        assert (Hrd : rstrip (String d u) = String d (rstrip u))
          by now apply rstrip_cons_nonspace.
        assert (Hrt : rstrip t = take_while is_space t +:+ String d (rstrip u)).
        { replace (rstrip t)
            with (rstrip (take_while is_space t +:+ String d u))
            by now rewrite Ht.
          rewrite rstrip_app; rewrite Hrd; [reflexivity | discriminate]. }
        assert (Hrs : rstrip (String c t) = String c (rstrip t)).
        { apply rstrip_cons_nonempty. rewrite Hrt.
          destruct (take_while is_space t); discriminate. }
        cbn [re_words].
        erewrite re_plus_greedy; [reflexivity | exact Hc |].
        rewrite E.
        erewrite re_plus_greedy; [reflexivity | exact Hnd |].
        rewrite IH.
        -- f_equal. rewrite Hrs, Hrt, Hru.
           now rewrite !app_assoc3, !app_cons.
        -- simpl in Hlen, Hl. lia.
        -- destruct (drop_while not_space u) as [|e v]; [now right | left].
           simpl. unfold not_space in Hd2. now destruct (is_space e).
Qed.

(** The pattern matches every string, and group 1 is the string without
    the whitespace at its ends. *)
Lemma exec_trim_strip (s : string) : exec_trim s = Some (strip_whitespace s).
Proof.
  unfold exec_trim, strip_whitespace.
  apply re_star_greedy. fold (lstrip s).
  apply re_star_greedy. rewrite app_empty_l.
  rewrite re_words_rstrip.
  - f_equal. rewrite <- rstrip_nonspace_app by apply all_take_while.
    now rewrite take_drop_while.
  - lia.
  - pose proof (drop_while_head not_space (lstrip s)) as H.
    destruct (drop_while not_space (lstrip s)) as [|e v]; [now right | left].
    simpl. unfold not_space in H. now destruct (is_space e).
Qed.

Lemma replace_trim_strip (s : string) : replace_trim s = strip_whitespace s.
Proof. unfold replace_trim. now rewrite exec_trim_strip. Qed.


(* ------------------------------------------------------------------ *)
(** ** Comment stripping *)
(* ------------------------------------------------------------------ *)

Lemma after_close_length (s rest : string) :
  after_close s = Some rest -> (String.length rest < String.length s)%nat.
Proof.
  revert rest. induction s as [|c t IH]; intros rest H; [discriminate |].
  destruct t as [|d t']; [discriminate |].
  cbn [after_close] in H. fold after_close in H.
  match type of H with
  | context [if ?b then _ else _] => destruct b
  end.
  - injection H as <-. simpl. lia.
  - apply IH in H. simpl in *. lia.
Qed.

Lemma skip_line_length (s : string) :
  (String.length (skip_line s) <= String.length s)%nat.
Proof.
  induction s as [|c t IH]; [simpl; lia |].
  cbn [skip_line]. fold skip_line.
  destruct (is_char LF c || is_char CR c); simpl in *; lia.
Qed.

(** Fuel beyond the length of the text changes nothing. *)
Lemma strip_block_comments_fuel (n : nat) :
  forall fuel s,
    (String.length s <= n)%nat -> (n <= fuel)%nat ->
    strip_block_comments fuel s = strip_block_comments n s.
Proof.
  induction n as [|n IH]; intros fuel s Hs Hf.
  - destruct s; [| simpl in Hs; lia]. now destruct fuel.
  - destruct fuel as [|fuel]; [lia |].
    destruct s as [|c t]; [reflexivity |].
    simpl in Hs. destruct t as [|d t']; [reflexivity |].
    cbn [strip_block_comments]. fold strip_block_comments.
    destruct (is_char "/" c && is_char "*" d).
    + destruct (after_close t') as [rest|] eqn:E.
      * apply after_close_length in E. simpl in Hs. apply IH; lia.
      * f_equal. apply IH; simpl in *; lia.
    + f_equal. apply IH; simpl in *; lia.
Qed.

Lemma strip_line_comments_fuel (n : nat) :
  forall fuel s,
    (String.length s <= n)%nat -> (n <= fuel)%nat ->
    strip_line_comments fuel s = strip_line_comments n s.
Proof.
  induction n as [|n IH]; intros fuel s Hs Hf.
  - destruct s; [| simpl in Hs; lia]. now destruct fuel.
  - destruct fuel as [|fuel]; [lia |].
    destruct s as [|c t]; [reflexivity |].
    simpl in Hs. destruct t as [|d t']; [reflexivity |].
    cbn [strip_line_comments]. fold strip_line_comments.
    destruct (is_char "/" c && is_char "/" d).
    + pose proof (skip_line_length t'). simpl in Hs. apply IH; lia.
    + f_equal. apply IH; simpl in *; lia.
Qed.

(** Block comments go first, so a line comment inside one goes with it,
    and a block comment left open stays. *)
Example removeJsComments_sample :
  _removeJsComments "{/* a
 b */x: 1, // c
y: /* open" = "{x: 1, 
y: /* open".
Proof. reflexivity. Qed.

Example replace_trim_sample : replace_trim " foo(); " = "foo();".
Proof. reflexivity. Qed.

Example outputErrors_sample :
  outputErrors [Some {| line := 3; character := 5;
                        reason := "Missing semicolon"; evidence := None |}]
               false
  = "Lint at line 3 character 5: Missing semicolon" +:+ nl.
Proof. reflexivity. Qed.


(* ================================================================== *)
(** * The report *)
(* ================================================================== *)

Lemma join_cons (x : string) (xs : list string) : join (x :: xs) = x +:+ join xs.
Proof.
  unfold join. destruct xs as [|y ys]; simpl.
  - now rewrite app_empty_r.
  - reflexivity.
Qed.

Lemma join_app (xs ys : list string) : join (xs ++ ys) = join xs +:+ join ys.
Proof.
  induction xs as [|x xs IH]; [reflexivity |].
  change ((x :: xs) ++ ys) with (x :: (xs ++ ys)).
  now rewrite !join_cons, IH, app_assoc3.
Qed.

Lemma join_out (output : list string) (s : string) :
  join (out output s) = join output +:+ s +:+ nl.
Proof.
  unfold out. now rewrite join_app.
Qed.

(** The loop appends, to what was output before, the blocks of the truthy
    slots in order. *)
Lemma outputErrors_loop_blocks (errors : list (option Finding)) (showCode : bool) :
  forall output,
    join (outputErrors_loop errors showCode output)
    = join output
      +:+ join (map (finding_block showCode) (truthy_findings errors)).
Proof.
  induction errors as [|e rest IH]; intros output; simpl.
  - now rewrite app_empty_r.
  - destruct e as [f|]; [| apply IH].
    rewrite IH. simpl. rewrite join_cons.
    rewrite <- (app_assoc3 (join output) (finding_block showCode f)).
    f_equal. unfold finding_block. fold (finding_line f).
    destruct showCode.
    + rewrite !join_out, replace_trim_strip.
      now rewrite !app_assoc3, ?app_empty_l.
    + now rewrite join_out, app_empty_r, ?app_assoc3.
Qed.

Lemma outputErrors_blocks (errors : list (option Finding)) (showCode : bool) :
  outputErrors errors showCode
  = join (map (finding_block showCode) (truthy_findings errors)).
Proof. unfold outputErrors. now rewrite outputErrors_loop_blocks. Qed.

Lemma truthy_findings_app (a b : list (option Finding)) :
  truthy_findings (a ++ b) = truthy_findings a ++ truthy_findings b.
Proof.
  induction a as [|[f|] a IH]; simpl; [reflexivity | now rewrite IH | exact IH].
Qed.

Lemma outputErrors_app (a b : list (option Finding)) (showCode : bool) :
  outputErrors (a ++ b) showCode
  = outputErrors a showCode +:+ outputErrors b showCode.
Proof.
  now rewrite !outputErrors_blocks, truthy_findings_app, map_app, join_app.
Qed.

(** C2. A run that passes yields the single line that names the file
    (an absent file name prints as [undefined]). A
    run that fails yields, for the truthy slots of the findings in the
    linter's order, the block of each: its [Lint at line] line and, only
    if [showCode] holds, the evidence without the whitespace at its ends
    on the next line and then an empty line; a falsy slot yields nothing.
    The evidence line is the evidence stripped in the sense of
    [is_trim_of]. *)
Theorem lintify_report
        (hinters : Mode -> option string -> Config -> LintRun)
        (mode : Mode) (sourcedata filename : option string)
        (showCode : bool) (config : Config) :
  let run := hinters mode sourcedata config in
  (passed run = true ->
   lintify hinters mode sourcedata filename showCode config
   = "js: No problems found in " +:+ to_string filename +:+ nl)
  /\ (passed run = false ->
      lintify hinters mode sourcedata filename showCode config
      = join (map (finding_block showCode) (truthy_findings (errors run))))
  /\ (forall f,
        finding_block false f
        = "Lint at line " +:+ number_to_string (line f)
          +:+ " character " +:+ number_to_string (character f)
          +:+ ": " +:+ reason f +:+ nl)
  /\ (forall f,
        exists text,
          is_trim_of (or_default (evidence f) "") text
          /\ finding_block true f
             = "Lint at line " +:+ number_to_string (line f)
               +:+ " character " +:+ number_to_string (character f)
               +:+ ": " +:+ reason f +:+ nl +:+ text +:+ nl +:+ nl).
Proof.
  intros run. unfold lintify. fold run. repeat split.
  - intros H. now rewrite H.
  - intros H. rewrite H. apply outputErrors_blocks.
  - intros f. unfold finding_block, finding_line.
    now rewrite !app_assoc3, app_empty_r.
  - intros f. exists (strip_whitespace (or_default (evidence f) "")).
    split; [apply strip_whitespace_spec |].
    unfold finding_block, finding_line. now rewrite !app_assoc3.
Qed.

(** C10. With [showCode], the block of a finding whose evidence is absent
    or empty is still its [Lint at line] line, an empty evidence line
    and the empty separator line, between the output for the findings
    before it and the output for those after it. *)
Theorem lintify_block_without_evidence
        (hinters : Mode -> option string -> Config -> LintRun)
        (mode : Mode) (sourcedata filename : option string) (config : Config)
        (before after : list (option Finding)) (f : Finding) :
  passed (hinters mode sourcedata config) = false ->
  errors (hinters mode sourcedata config) = before ++ Some f :: after ->
  evidence f = None \/ evidence f = Some "" ->
  lintify hinters mode sourcedata filename true config
  = outputErrors before true
    +:+ ("Lint at line " +:+ number_to_string (line f)
         +:+ " character " +:+ number_to_string (character f)
         +:+ ": " +:+ reason f +:+ nl
         +:+ nl
         +:+ nl)
    +:+ outputErrors after true.
Proof.
  intros Hfail Herr Hev. unfold lintify. rewrite Hfail, Herr.
  change (Some f :: after) with ([Some f] ++ after).
  rewrite !outputErrors_app. f_equal. f_equal.
  rewrite outputErrors_blocks. simpl. rewrite join_cons.
  unfold finding_block, finding_line, strip_whitespace.
  destruct Hev as [-> | ->]; simpl;
    now rewrite !app_assoc3, ?app_empty_l, ?app_empty_r.
Qed.

(* ================================================================== *)
(** * The configuration cache *)
(* ================================================================== *)

Ltac exec_unfold :=
  unfold cached_or_default, with_local,
    try_finally, try_catch, refresh_try, refresh_catch, refresh_finally,
    call, emit, new_object, set_fd, modify, gets, lift, bind, ret, throw,
    set_cache, add_event; simpl.

Lemma truthy_Some (path : string) : path <> "" -> truthy (Some path) = true.
Proof.
  intros H. simpl.
  destruct (String.eqb_spec path ""); [contradiction | reflexivity].
Qed.


Lemma statChanged_same (s o : Stats) :
  st_dev s = st_dev o -> st_ino s = st_ino o ->
  st_size s = st_size o -> st_mtime s = st_mtime o ->
  _statChanged s (Some o) = false.
Proof.
  intros H1 H2 H3 H4. unfold _statChanged.
  now rewrite H1, H2, H3, H4, !Z.eqb_refl.
Qed.

(** A call without a path touches no file and returns a new empty
    configuration, stored under the key of the absent path. *)
Lemma getConfig_falsy (JSON_parse : string -> outcome json) (fs : FS)
      (filePath : option string) (st : Store) :
  truthy filePath = false ->
  _getConfig JSON_parse fs filePath st
  = (Ok {| cfg_ref := next_ref st; cfg_val := empty_object |},
     {| _cache :=
          <[to_string filePath :=
              {| cfg := {| cfg_ref := next_ref st; cfg_val := empty_object |};
                 stat := None |}]> (_cache st);
        next_ref := (next_ref st + 1)%nat;
        events := events st |}).
Proof.
  intros H. unfold _getConfig, _refreshConfig. rewrite H. exec_unfold.
  now rewrite lookup_insert_eq.
Qed.

(** Symbolic execution of a call for a path, by the outcomes of the
    calls into the runtime. *)
Lemma getConfig_truthy (JSON_parse : string -> outcome json) (fs : FS)
      (path : string) (st : Store) :
  path <> "" ->
  _getConfig JSON_parse fs (Some path) st
  = let prev := prev_entry st path in
    let n := prev_next_ref st path in
    match openSync fs path O_RDONLY with
    | Throw e => finish st path prev n (FsOpen path O_RDONLY :: failure_events e)
    | Ok d =>
        match fstatSync fs d with
        | Throw e =>
            finish st path prev n
              (FsOpen path O_RDONLY :: FsFstat d
               :: failure_events e ++ close_events d)
        | Ok s =>
            if _statChanged s (stat prev) then
              match readFileSync fs d with
              | Throw e =>
                  finish st path prev n
                    (FsOpen path O_RDONLY :: FsFstat d :: FsReadFile d
                     :: failure_events e ++ close_events d)
              | Ok content =>
                  let text := _removeJsComments content in
                  match JSON_parse text with
                  | Throw e =>
                      finish st path prev n
                        (FsOpen path O_RDONLY :: FsFstat d :: FsReadFile d
                         :: JsonParse text
                         :: failure_events e ++ close_events d)
                  | Ok v =>
                      finish st path
                        {| cfg := {| cfg_ref := n; cfg_val := v |};
                           stat := Some s |}
                        (n + 1)%nat
                        (FsOpen path O_RDONLY :: FsFstat d :: FsReadFile d
                         :: JsonParse text
                         :: ConsoleLog ("Loading jshintrc: " +:+ path)
                         :: close_events d)
                  end
              end
            else
              finish st path {| cfg := cfg prev; stat := Some s |} n
                (FsOpen path O_RDONLY :: FsFstat d :: close_events d)
        end
    end.
Proof.
  intros Hp. unfold _getConfig, _refreshConfig.
  rewrite (truthy_Some _ Hp). unfold finish, prev_entry, prev_next_ref,
    failure_events, close_events.
  exec_unfold.
  destruct (_cache st !! path) as [prev|];
    [| destruct (inherited_name path)]; simpl;
    repeat match goal with
           | |- context [openSync fs ?p ?f] => destruct (openSync fs p f); simpl
           | |- context [fstatSync fs ?x] => destruct (fstatSync fs x); simpl
           | |- context [if _statChanged ?a ?o then _ else _] =>
               destruct (_statChanged a o); simpl
           | |- context [readFileSync fs ?x] => destruct (readFileSync fs x); simpl
           | |- context [JSON_parse ?t] => destruct (JSON_parse t); simpl
           | |- context [if -1 <? ?x then _ else _] => destruct (-1 <? x); simpl
           | |- context [closeSync fs ?x] => destruct (closeSync fs x); simpl
           end;
    rewrite ?lookup_insert_eq; simpl; rewrite <- ?app_assoc; reflexivity.
Qed.

Lemma truthy_inv (filePath : option string) :
  truthy filePath = true -> exists path, filePath = Some path /\ path <> "".
Proof.
  destruct filePath as [path|]; [| discriminate].
  simpl. intros H. exists path. split; [reflexivity |].
  intros ->. discriminate.
Qed.

Lemma stat_prev_entry (st : Store) (path : string) :
  stat (prev_entry st path) = stored_stat st path.
Proof. unfold prev_entry, stored_stat. now destruct (_cache st !! path). Qed.

Lemma existsb_close_events (p : Event -> bool) (d : Z) :
  p (FsClose d) = false -> existsb p (close_events d) = false.
Proof.
  intros H. unfold close_events. destruct (-1 <? d); simpl; [now rewrite H | reflexivity].
Qed.


(** A failed load leaves the previous entry in the cache and prints the
    error; it allocates nothing beyond that entry. *)
Lemma getConfig_failed_load (JSON_parse : string -> outcome json) (fs : FS)
      (path : string) (st : Store) (err : JsError) :
  path <> "" ->
  load_failure JSON_parse fs path (stored_stat st path) = Some err ->
  exists evs,
    _getConfig JSON_parse fs (Some path) st
    = finish st path (prev_entry st path) (prev_next_ref st path) evs
    /\ In (ConsoleError ("Could not load jshintrc:" +:+ error_to_string err)) evs.
Proof.
  intros Hp Hf. rewrite (getConfig_truthy _ _ _ _ Hp). cbv zeta.
  unfold load_failure in Hf. rewrite stat_prev_entry.
  destruct (openSync fs path O_RDONLY) as [d|e].
  - destruct (fstatSync fs d) as [s|e].
    + destruct (_statChanged s (stored_stat st path)); [| discriminate].
      destruct (readFileSync fs d) as [content|e].
      * destruct (JSON_parse (_removeJsComments content)) as [v|e];
          [discriminate |].
        injection Hf as <-. eexists. split; [reflexivity |].
        simpl. tauto.
      * injection Hf as <-. eexists. split; [reflexivity |]. simpl. tauto.
    + injection Hf as <-. eexists. split; [reflexivity |]. simpl. tauto.
  - injection Hf as <-. eexists. split; [reflexivity |]. simpl. tauto.
Qed.



(** A call for a path always returns a configuration. *)
Lemma getConfig_returns (JSON_parse : string -> outcome json) (fs : FS)
      (path : string) (st : Store) :
  path <> "" ->
  exists entry n evs,
    _getConfig JSON_parse fs (Some path) st = finish st path entry n evs.
Proof.
  intros Hp. rewrite (getConfig_truthy _ _ _ _ Hp). cbv zeta.
  destruct (openSync fs path O_RDONLY) as [d|e]; [| now eexists _, _, _].
  destruct (fstatSync fs d) as [s|e]; [| now eexists _, _, _].
  destruct (_statChanged s (stat (prev_entry st path))); [| now eexists _, _, _].
  destruct (readFileSync fs d) as [content|e]; [| now eexists _, _, _].
  destruct (JSON_parse (_removeJsComments content)); now eexists _, _, _.
Qed.

(** The loader returns on every call and never throws. When loading the
    file fails (it does not open, its metadata or content cannot be
    read, or its content without comments is not JSON) the failure is
    printed, and what is returned is the configuration cached for the
    path; or, with none cached, [undefined] for a path that spells a
    property inherited from [Object.prototype] and a new empty
    configuration for every other path. *)
Lemma getConfig_never_throws
      (JSON_parse : string -> outcome json) (fs : FS)
      (filePath : option string) (st : Store) :
  exists c st' evs,
    _getConfig JSON_parse fs filePath st = (Ok c, st')
    /\ events st' = events st ++ evs
    /\ (forall err,
          truthy filePath = true ->
          load_failure JSON_parse fs (to_string filePath)
                       (stored_stat st (to_string filePath)) = Some err ->
          In (ConsoleError ("Could not load jshintrc:" +:+ error_to_string err)) evs
          /\ match _cache st !! to_string filePath with
             | Some e => c = cfg e
             | None =>
                 c = {| cfg_ref := next_ref st;
                        cfg_val := if inherited_name (to_string filePath)
                                   then JUndefined else empty_object |}
             end).
Proof.
  destruct (truthy filePath) eqn:Ht.
  - destruct (truthy_inv _ Ht) as [path [-> Hp]]. simpl to_string.
    destruct (load_failure JSON_parse fs path (stored_stat st path))
      as [err|] eqn:Hf.
    + destruct (getConfig_failed_load _ _ _ _ _ Hp Hf) as [evs [Hrun Hin]].
      rewrite Hrun. unfold finish. eexists _, _, evs.
      split; [reflexivity |]. split; [reflexivity |].
      intros err' _ Herr. injection Herr as <-. split; [exact Hin |].
      unfold prev_entry. now destruct (_cache st !! path).
    + destruct (getConfig_returns JSON_parse fs path st Hp)
        as [entry [n [evs Hrun]]].
      rewrite Hrun. unfold finish. eexists _, _, evs.
      split; [reflexivity |]. split; [reflexivity |]. discriminate.
  - rewrite (getConfig_falsy _ _ _ _ Ht). eexists _, _, [].
    split; [reflexivity |]. split; [simpl; now rewrite app_nil_r |].
    discriminate.
Qed.

Lemma inherited_name_nonempty (path : string) :
  inherited_name path = true -> path <> "".
Proof. intros H ->. discriminate. Qed.

(** C5. For a path that spells a property inherited from
    [Object.prototype], [constructor] for one, and that has no entry of
    its own in the cache, a failure to load the file is printed and no
    exception escapes; but the loader starts from the inherited value
    instead of the empty entry that its fallback is written to give, and
    what it stores has no snapshot and what it returns is [undefined],
    not an empty configuration. *)
Theorem getConfig_inherited_name_returns_undefined
        (JSON_parse : string -> outcome json) (fs : FS) (path : string)
        (st : Store) (err : JsError) :
  inherited_name path = true ->
  _cache st !! path = None ->
  load_failure JSON_parse fs path None = Some err ->
  exists c st' evs,
    _getConfig JSON_parse fs (Some path) st = (Ok c, st')
    /\ events st' = events st ++ evs
    /\ In (ConsoleError ("Could not load jshintrc:" +:+ error_to_string err)) evs
    /\ cfg_val c = JUndefined
    /\ cfg_val c <> empty_object
    /\ _cache st' !! path = Some {| cfg := c; stat := None |}.
Proof.
  intros Hi Hc Hf.
  pose proof (inherited_name_nonempty _ Hi) as Hp.
  assert (Hs : stored_stat st path = None) by (unfold stored_stat; now rewrite Hc).
  rewrite <- Hs in Hf.
  destruct (getConfig_failed_load _ _ _ _ _ Hp Hf) as [evs [Hrun Hin]].
  rewrite Hrun. unfold finish, prev_entry. rewrite Hc, Hi. simpl.
  eexists _, _, evs. split; [reflexivity |]. split; [reflexivity |].
  split; [exact Hin |]. split; [reflexivity |]. split; [discriminate |].
  apply lookup_insert_eq.
Qed.

(** C9. A call that opens the file closes the descriptor it got, once,
    as its last action: between the opening and the closing there is no
    other opening or closing, whatever the later calls into the runtime
    do (metadata, content or parse failure, unchanged metadata, reload,
    failing close). *)
Theorem getConfig_closes_descriptor
        (JSON_parse : string -> outcome json) (fs : FS) (path : string)
        (st : Store) (d : Z) :
  path <> "" ->
  openSync fs path O_RDONLY = Ok d ->
  0 <= d ->
  exists r st' mid,
    _getConfig JSON_parse fs (Some path) st = (r, st')
    /\ events st' = events st ++ FsOpen path O_RDONLY :: mid ++ [FsClose d]
    /\ existsb is_open mid = false
    /\ existsb is_close mid = false.
Proof.
  intros Hp Ho Hd.
  assert (Hc : close_events d = [FsClose d]).
  { unfold close_events. now replace (-1 <? d) with true by (symmetry; apply Z.ltb_lt; lia). }
  rewrite (getConfig_truthy _ _ _ _ Hp), Ho. cbv zeta. rewrite Hc.
  unfold finish.
  destruct (fstatSync fs d) as [s|e].
  - destruct (_statChanged s (stat (prev_entry st path))).
    + destruct (readFileSync fs d) as [content|e].
      * destruct (JSON_parse (_removeJsComments content)) as [v|e].
        -- exists (Ok {| cfg_ref := prev_next_ref st path; cfg_val := v |}).
           eexists.
           exists [FsFstat d; FsReadFile d; JsonParse (_removeJsComments content);
                   ConsoleLog ("Loading jshintrc: " +:+ path)].
           now repeat split.
        -- eexists _, _.
           exists (FsFstat d :: FsReadFile d
                   :: JsonParse (_removeJsComments content) :: failure_events e).
           now repeat split.
      * eexists _, _. exists (FsFstat d :: FsReadFile d :: failure_events e).
        now repeat split.
    + eexists _, _. exists [FsFstat d]. now repeat split.
  - eexists _, _. exists (FsFstat d :: failure_events e). now repeat split.
Qed.

(** Without a path, or when the file does not open, the call holds no
    descriptor and closes none. *)
Lemma getConfig_nothing_to_close (JSON_parse : string -> outcome json)
      (fs : FS) (filePath : option string) (st : Store) :
  truthy filePath = false
  \/ (exists e, openSync fs (to_string filePath) O_RDONLY = Throw e) ->
  exists r st' evs,
    _getConfig JSON_parse fs filePath st = (r, st')
    /\ events st' = events st ++ evs
    /\ existsb is_close evs = false.
Proof.
  intros H. destruct (truthy filePath) eqn:Ht.
  - destruct H as [H | [e He]]; [discriminate |].
    destruct (truthy_inv _ Ht) as [path [-> Hp]]. simpl in He.
    rewrite (getConfig_truthy _ _ _ _ Hp), He. cbv zeta. unfold finish.
    now eexists _, _, _.
  - rewrite (getConfig_falsy _ _ _ _ Ht). eexists _, _, [].
    split; [reflexivity |]. split; [simpl; now rewrite app_nil_r | reflexivity].
Qed.

(* ================================================================== *)
(** * The request handler *)
(* ================================================================== *)

Lemma getConfig_ok (JSON_parse : string -> outcome json) (fs : FS)
      (filePath : option string) (st : Store) :
  exists c st', _getConfig JSON_parse fs filePath st = (Ok c, st').
Proof.
  destruct (truthy filePath) eqn:Ht.
  - destruct (truthy_inv _ Ht) as [path [-> Hp]].
    destruct (getConfig_returns JSON_parse fs path st Hp) as [e [n [evs H]]].
    rewrite H. unfold finish. now eexists _, _.
  - rewrite (getConfig_falsy _ _ _ _ Ht). now eexists _, _.
Qed.

Lemma select_mode_jslint (fields : Fields) :
  select_mode fields = jslint <-> f_mode fields = Some "jslint".
Proof.
  unfold select_mode. destruct (f_mode fields) as [m|]; simpl.
  - destruct (String.eqb_spec m "jslint") as [-> | Hne].
    + simpl. tauto.
    + rewrite andb_false_r. split; [discriminate | congruence].
  - split; discriminate.
Qed.

(** The check answers with the report of the selected linter. *)
Lemma on_form_response (JSON_parse : string -> outcome json)
      (hinters : Mode -> option string -> Config -> LintRun)
      (fs : FS) (now later : Z) (fields : Fields) (st : Store) :
  exists config st',
    on_form JSON_parse hinters fs now later fields st
    = (Ok (text_plain (lintify hinters (select_mode fields) (f_source fields)
                               (f_filename fields) (select_showCode fields)
                               config)),
       st').
Proof.
  unfold on_form, bind, emit, modify, ret. simpl.
  match goal with
  | |- context [_getConfig JSON_parse fs ?p ?s] =>
      destruct (getConfig_ok JSON_parse fs p s) as [c [st1 H]]; rewrite H
  end.
  now eexists _, _.
Qed.

(** C6. The form selects [jslint] exactly when its [mode] field is the
    string [jslint], and [jshint] in every other case, the absent field
    included; a form without [mode] is handled as the same form with
    [mode] set to [jshint]; [showCode] holds exactly when the field is
    the string [1]; and the response is the report of the selected
    linter with the selected [showCode]. *)
Theorem form_selects_mode_and_showCode
        (JSON_parse : string -> outcome json)
        (hinters : Mode -> option string -> Config -> LintRun)
        (fs : FS) (now later : Z) (fields : Fields) (st : Store) :
  (select_mode fields = jslint <-> f_mode fields = Some "jslint")
  /\ (select_mode fields = jshint <-> f_mode fields <> Some "jslint")
  /\ (select_showCode fields = true <-> f_showCode fields = Some "1")
  /\ (exists config st',
        on_form JSON_parse hinters fs now later fields st
        = (Ok (text_plain (lintify hinters (select_mode fields)
                                   (f_source fields) (f_filename fields)
                                   (select_showCode fields) config)),
           st'))
  /\ on_request JSON_parse hinters fs now later
       {| url := "/check"; method := "POST" |}
       {| f_source := f_source fields; f_filename := f_filename fields;
          f_mode := None;
          f_showCode := f_showCode fields; f_jshintrc := f_jshintrc fields |} st
     = on_request JSON_parse hinters fs now later
         {| url := "/check"; method := "POST" |}
         {| f_source := f_source fields; f_filename := f_filename fields;
            f_mode := Some "jshint";
            f_showCode := f_showCode fields; f_jshintrc := f_jshintrc fields |} st.
Proof.
  split; [apply select_mode_jslint |].
  split.
  { pose proof (select_mode_jslint fields) as H.
    unfold select_mode in *.
    destruct (truthy (f_mode fields) && equals (f_mode fields) "jslint").
    - split; [discriminate | intros Hne; exfalso; apply Hne, H; reflexivity].
    - split; [intros _ Heq; apply H in Heq; discriminate | reflexivity]. }
  split.
  { unfold select_showCode. destruct (f_showCode fields) as [v|]; simpl.
    - destruct (String.eqb_spec v "1") as [-> | Hne].
      + simpl. tauto.
      + rewrite andb_false_r. split; [discriminate | congruence].
    - split; discriminate. }
  split; [apply on_form_response | reflexivity].
Qed.

(** C7. A request whose URL is not [/check], or whose method in upper
    case is not [POST], is answered with status 200, the content type
    [text/plain] and the greeting; the state is left as it was. *)
Theorem other_requests_get_greeting
        (JSON_parse : string -> outcome json)
        (hinters : Mode -> option string -> Config -> LintRun)
        (fs : FS) (now later : Z) (req : Request) (fields : Fields)
        (st : Store) :
  url req <> "/check" \/ toUpperCase (method req) <> "POST" ->
  on_request JSON_parse hinters fs now later req fields st
  = (Ok {| statusCode := 200;
           headers := [("Content-Type", "text/plain")];
           body := "hello from jshint-mode" |},
     st).
Proof.
  intros H. unfold on_request.
  destruct (String.eqb_spec (url req) "/check") as [Hu | Hu];
    [| reflexivity].
  destruct (String.eqb_spec (toUpperCase (method req)) "POST") as [Hm | Hm];
    [| reflexivity].
  destruct H; contradiction.
Qed.

(* ================================================================== *)
(** * The listener *)
(* ================================================================== *)

Lemma strict_equals_spec (v : Primitive) (s : string) :
  reflect (v = s) (strict_equals v s).
Proof.
  destruct v as [t | n]; simpl.
  - destruct (String.eqb_spec t s) as [E | E]; constructor;
      [now rewrite E | intros H; apply E; now injection H].
  - constructor. discriminate.
Qed.

Lemma bind_attempts_app (a b : list ProcEvent) :
  bind_attempts (a ++ b) = bind_attempts a ++ bind_attempts b.
Proof.
  induction a as [|e a IH]; [reflexivity |].
  destruct e; simpl; now rewrite IH.
Qed.

Lemma step_attempts_bounded (net : Z -> string -> option ListenError)
      (p0 lp : Z) (l : Listener) :
  attempts_bounded p0 lp l -> attempts_bounded p0 lp (step net l).
Proof.
  intros [Hlp [rest [Hh Hr]]]. unfold step.
  destruct (status l); try (split; [exact Hlp | now exists rest]).
  destruct (net (port l) (host l)) as [err|].
  - unfold on_error. destruct (strict_equals (errno err) "EADDRINUSE").
    + destruct (port l >=? lastPort l) eqn:E.
      * split; [exact Hlp |]. exists rest. simpl.
        rewrite bind_attempts_app, Hh. simpl. now rewrite app_nil_r.
      * split; [exact Hlp |]. exists (rest ++ [port l + 1]). simpl.
        rewrite bind_attempts_app, Hh. split; [reflexivity |].
        apply Forall_app. split; [exact Hr |].
        constructor; [| constructor].
        rewrite <- Hlp. rewrite Z.geb_leb in E. apply Z.leb_gt in E. lia.
    + split; [exact Hlp | now exists rest].
  - split; [exact Hlp |]. exists rest. simpl.
    rewrite bind_attempts_app, Hh. simpl. now rewrite app_nil_r.
Qed.

Lemma run_attempts_bounded (net : Z -> string -> option ListenError)
      (p0 lp : Z) (n : nat) :
  forall l, attempts_bounded p0 lp l -> attempts_bounded p0 lp (run net n l).
Proof.
  induction n as [|n IH]; intros l H; [exact H |].
  simpl. apply IH. now apply step_attempts_bounded.
Qed.

(** X30. The handler on an error whose [errno] is the string
    [EADDRINUSE], the form of an address in use on Node up to version
    12: with the port below [lastPort], the port grows by one and
    [listen] is called on the new port, one that [listen] accepts; with
    the port at or beyond [lastPort], the failure is printed and the
    process exits with status 2. In every run, each [listen] after the
    first is on a port up to [lastPort]. *)
Theorem address_in_use_retries_or_exits (err : ListenError) (l : Listener) :
  errno err = "EADDRINUSE" ->
  (port l < lastPort l ->
   valid_port (port l + 1) = true ->
   on_error err l
   = {| port := port l + 1; lastPort := lastPort l; host := host l;
        status := Binding;
        history := history l ++ [Listen (port l + 1) (host l)] |})
  /\ (lastPort l <= port l ->
      on_error err l
      = {| port := port l; lastPort := lastPort l; host := host l;
           status := Exited 2;
           history := history l ++
             [Stderr ("Error occurred during '" +:+ syscall err +:+ "': "
                      +:+ code err +:+ nl);
              ProcessExit 2] |})
  /\ (forall net p0 lp h n,
        exists rest,
          bind_attempts (history (run net n (start p0 lp h))) = p0 :: rest
          /\ Forall (fun p => p <= lp) rest).
Proof.
  intros He. unfold on_error. rewrite He. simpl.
  split; [| split].
  - intros H _. replace (port l >=? lastPort l) with false; [reflexivity |].
    symmetry. rewrite Z.geb_leb. apply Z.leb_gt. lia.
  - intros H. replace (port l >=? lastPort l) with true; [reflexivity |].
    symmetry. rewrite Z.geb_leb. apply Z.leb_le. lia.
  - intros net p0 lp h n.
    apply (run_attempts_bounded net p0 lp n (start p0 lp h)).
    split; [reflexivity |]. exists []. split; [reflexivity | constructor].
Qed.

Lemma step_announces_port (net : Z -> string -> option ListenError)
      (h : string) (l : Listener) :
  announces_port net h l -> announces_port net h (step net l).
Proof.
  intros [Hh Hs]. unfold step.
  destruct (status l) eqn:Est;
    try (split; [exact Hh | now rewrite Est]).
  destruct Hs as [pre Hpre].
  destruct (net (port l) (host l)) as [err|] eqn:En.
  - unfold on_error. destruct (strict_equals (errno err) "EADDRINUSE").
    + destruct (port l >=? lastPort l).
      * split; [exact Hh | exact I].
      * split; [exact Hh |]. simpl. rewrite Hh. now exists (history l).
    + split; [exact Hh | exact I].
  - split; [exact Hh |]. simpl. rewrite Hh in En. split; [exact En |].
    exists pre. rewrite Hpre, Hh, <- app_assoc. reflexivity.
Qed.

Lemma run_announces_port (net : Z -> string -> option ListenError)
      (h : string) (n : nat) :
  forall l, announces_port net h l -> announces_port net h (run net n l).
Proof.
  induction n as [|n IH]; intros l H; [exact H |].
  simpl. apply IH. now apply step_announces_port.
Qed.

(** C8. The [listening] handler prints the line
    [Started JSHint server at http://<host>:<port>.] for the current
    host and port; and whenever a run has reached the listening state,
    its last two events are the [listen] call on the current port, which
    the network accepted, and that line with that port. *)
Theorem listening_announces_bound_port
        (net : Z -> string -> option ListenError)
        (p0 lp : Z) (h : string) (n : nat) :
  (forall l,
     history (on_listening l)
     = history l ++
       [Stdout ("Started JSHint server at http://" +:+ host l +:+ ":"
                +:+ number_to_string (port l) +:+ "." +:+ nl)])
  /\ (status (run net n (start p0 lp h)) = Listening ->
      let l := run net n (start p0 lp h) in
      net (port l) h = None
      /\ exists pre,
           history l
           = pre ++
             [Listen (port l) h;
              Stdout ("Started JSHint server at http://" +:+ h +:+ ":"
                      +:+ number_to_string (port l) +:+ "." +:+ nl)]).
Proof.
  split; [reflexivity |].
  intros Hs l.
  assert (H : announces_port net h l).
  { apply run_announces_port. split; [reflexivity |]. simpl. now exists []. }
  destruct H as [_ H]. subst l. rewrite Hs in H. exact H.
Qed.

Lemma run_settled (net : Z -> string -> option ListenError) (k : nat) :
  forall l, status l <> Binding -> run net k l = l.
Proof.
  induction k as [|k IH]; intros l H; [reflexivity |].
  simpl. replace (step net l) with l; [now apply IH |].
  unfold step. now destruct (status l).
Qed.

(** A run settles: after at most one step per port from the starting
    port to [lastPort], and one more, no [listen] is pending. *)
Lemma run_settles (net : Z -> string -> option ListenError) (k : nat) :
  forall l,
    (Z.to_nat (lastPort l - port l) < k)%nat ->
    status (run net k l) <> Binding.
Proof.
  induction k as [|k IH]; intros l Hk; [lia |].
  simpl. destruct (status l) eqn:Est;
    try (rewrite run_settled; unfold step; rewrite Est; congruence).
  unfold step. rewrite Est.
  destruct (net (port l) (host l)) as [err|];
    [| now rewrite run_settled].
  unfold on_error. destruct (strict_equals (errno err) "EADDRINUSE");
    [| now rewrite run_settled].
  destruct (port l >=? lastPort l) eqn:E; [now rewrite run_settled |].
  apply IH. simpl. rewrite Z.geb_leb in E. apply Z.leb_gt in E. lia.
Qed.

(** The listener reaches a state without pending [listen]. *)
Lemma start_settles (net : Z -> string -> option ListenError)
      (p0 lp : Z) (h : string) :
  status (run net (S (Z.to_nat (lp - p0))) (start p0 lp h)) <> Binding.
Proof. apply run_settles. simpl. lia. Qed.

(** With every port from the current one to [lastPort] in use, the run
    ends in exit status 2. *)
Lemma run_exhausts (net : Z -> string -> option ListenError) (k : nat) :
  forall l,
    status l = Binding ->
    port l <= lastPort l ->
    Z.to_nat (lastPort l - port l) = k ->
    (forall p, port l <= p <= lastPort l ->
               exists err, net p (host l) = Some err
                           /\ errno err = "EADDRINUSE") ->
    status (run net (S k) l) = Exited 2.
Proof.
  induction k as [|k IH]; intros l Hs Hle Hk Hnet;
    destruct (Hnet (port l) ltac:(lia)) as [err [Hn He]].
  - simpl. unfold step. rewrite Hs, Hn. unfold on_error. rewrite He. simpl.
    replace (port l >=? lastPort l) with true; [reflexivity |].
    symmetry. rewrite Z.geb_leb. apply Z.leb_le. lia.
  - change (run net (S (S k)) l) with (run net (S k) (step net l)).
    assert (Hstep : step net l
                    = listen {| port := port l + 1; lastPort := lastPort l;
                                host := host l; status := status l;
                                history := history l |}).
    { unfold step. rewrite Hs, Hn. unfold on_error. rewrite He. simpl.
      replace (port l >=? lastPort l) with false; [now rewrite Hs |].
      symmetry. rewrite Z.geb_leb. apply Z.leb_gt. lia. }
    rewrite Hstep. apply IH; simpl; try lia; [reflexivity |].
    intros p Hp. apply Hnet. lia.
Qed.

(** C3. An address in use that the runtime reports with a number as
    [errno], as Node from version 13 does, [code] naming the failure, is
    not recognised by the handler, which compares [errno] with the
    string [EADDRINUSE]: whatever the port and [lastPort], the port is
    not incremented, [listen] is not called again, nothing is printed
    and [process.exit] is not called. A run whose first port, one that
    [listen] accepts, is taken that way stays as it was after its first
    [listen], bound to no port, also when ports up to [lastPort]
    remain. *)
Theorem address_in_use_numeric_errno_unhandled
        (net : Z -> string -> option ListenError)
        (p0 lp : Z) (h : string) (err : ListenError) (k : Z) (n : nat) :
  code err = "EADDRINUSE" ->
  errno err = PNumber k ->
  (forall l,
     on_error err l
     = {| port := port l; lastPort := lastPort l; host := host l;
          status := Unbound; history := history l |})
  /\ (valid_port p0 = true ->
      net p0 h = Some err ->
      (0 < n)%nat ->
      run net n (start p0 lp h)
      = {| port := p0; lastPort := lp; host := h; status := Unbound;
           history := [Listen p0 h] |}).
Proof.
  intros _ He.
  assert (Hon : forall l,
             on_error err l
             = {| port := port l; lastPort := lastPort l; host := host l;
                  status := Unbound; history := history l |}).
  { intros l. unfold on_error. now rewrite He. }
  split; [exact Hon |].
  intros _ Hn Hpos. destruct n as [|n]; [lia |].
  change (run net (S n) (start p0 lp h))
    with (run net n (step net (start p0 lp h))).
  unfold step. simpl. rewrite Hn, Hon. simpl.
  now rewrite run_settled.
Qed.

(* ================================================================== *)
(** * The theorems at the samples *)
(* ================================================================== *)

Lemma lintify_report_witness :
  lintify sample_hinters jshint (Some "") (Some "my.js") true
          sample_config
  = "js: No problems found in my.js" +:+ nl
  /\ lintify sample_hinters jslint (Some "foo()") (Some "my.js") true
             sample_config
     = "Lint at line 3 character 5: Missing semicolon." +:+ nl
       +:+ "foo()" +:+ nl +:+ nl.
Proof.
  split.
  - exact (proj1 (lintify_report sample_hinters jshint (Some "") (Some "my.js")
                    true sample_config) eq_refl).
  - exact (proj1 (proj2 (lintify_report sample_hinters jslint (Some "foo()")
                           (Some "my.js") true sample_config)) eq_refl).
Defined.

Lemma lintify_block_without_evidence_witness :
  passed (bare_hinters jshint (Some "x") sample_config) = false
  /\ errors (bare_hinters jshint (Some "x") sample_config)
     = [None] ++ Some bare_finding :: [None]
  /\ (evidence bare_finding = None \/ evidence bare_finding = Some "")
  /\ lintify bare_hinters jshint (Some "x") None true sample_config
     = "Lint at line 3 character 5: Missing semicolon." +:+ nl +:+ nl +:+ nl.
Proof.
  split; [reflexivity |]. split; [reflexivity |]. split; [now left |].
  exact (lintify_block_without_evidence bare_hinters jshint (Some "x") None
           sample_config [None] [None] bare_finding
           eq_refl eq_refl (or_introl eq_refl)).
Defined.




Lemma getConfig_inherited_name_returns_undefined_witness :
  inherited_name "constructor" = true
  /\ _cache initial_store !! "constructor" = None
  /\ load_failure sample_parse empty_fs "constructor" None = Some enoent
  /\ exists st',
       _getConfig sample_parse empty_fs (Some "constructor") initial_store
       = (Ok {| cfg_ref := 0; cfg_val := JUndefined |}, st')
       /\ In (ConsoleError ("Could not load jshintrc:"
                            +:+ error_to_string enoent)) (events st')
       /\ _cache st' !! "constructor"
          = Some {| cfg := {| cfg_ref := 0; cfg_val := JUndefined |};
                    stat := None |}.
Proof.
  split; [reflexivity |]. split; [reflexivity |]. split; [reflexivity |].
  destruct (getConfig_inherited_name_returns_undefined
              sample_parse empty_fs "constructor" initial_store enoent
              eq_refl eq_refl eq_refl)
    as [c [st' [evs [Hrun [Hev [Hin [_ [_ Hc]]]]]]]].
  assert (Hr : c = {| cfg_ref := 0; cfg_val := JUndefined |}
               /\ st' = snd (_getConfig sample_parse empty_fs
                               (Some "constructor") initial_store)).
  { rewrite Hrun. simpl. split; [| reflexivity].
    assert (H : Ok c = fst (_getConfig sample_parse empty_fs
                              (Some "constructor") initial_store))
      by now rewrite Hrun.
    now injection H. }
  destruct Hr as [-> Hst]. exists st'.
  split; [exact Hrun |]. split; [| exact Hc].
  rewrite Hev. simpl. exact Hin.
Defined.

Lemma address_in_use_numeric_errno_unhandled_witness :
  code eaddrinuse_number = "EADDRINUSE"
  /\ errno eaddrinuse_number = PNumber (-98)
  /\ valid_port 3003 = true
  /\ taken_below_number 3005 3003 "127.0.0.1" = Some eaddrinuse_number
  /\ (0 < 4)%nat
  /\ on_error eaddrinuse_number (start 3003 3010 "127.0.0.1")
     = {| port := 3003; lastPort := 3010; host := "127.0.0.1";
          status := Unbound; history := [Listen 3003 "127.0.0.1"] |}
  /\ run (taken_below_number 3005) 4 (start 3003 3010 "127.0.0.1")
     = {| port := 3003; lastPort := 3010; host := "127.0.0.1";
          status := Unbound; history := [Listen 3003 "127.0.0.1"] |}.
Proof.
  assert (Hn : (0 < 4)%nat) by lia.
  split; [reflexivity |]. split; [reflexivity |]. split; [reflexivity |].
  split; [reflexivity |]. split; [exact Hn |].
  destruct (address_in_use_numeric_errno_unhandled
              (taken_below_number 3005) 3003 3010 "127.0.0.1"
              eaddrinuse_number (-98) 4 eq_refl eq_refl)
    as [Hon Hrun].
  split; [exact (Hon (start 3003 3010 "127.0.0.1")) |].
  exact (Hrun eq_refl eq_refl Hn).
Defined.

Lemma getConfig_never_throws_sample :
  truthy (Some ".jshintrc") = true
  /\ load_failure sample_parse empty_fs ".jshintrc"
                  (stored_stat loaded_store ".jshintrc") = Some enoent
  /\ exists st' evs,
       _getConfig sample_parse empty_fs (Some ".jshintrc") loaded_store
       = (Ok {| cfg_ref := 1; cfg_val := empty_object |}, st')
       /\ events st' = events loaded_store ++ evs
       /\ In (ConsoleError ("Could not load jshintrc:"
                            +:+ error_to_string enoent)) evs.
Proof.
  split; [reflexivity |]. split; [reflexivity |].
  destruct (getConfig_never_throws
              sample_parse empty_fs (Some ".jshintrc") loaded_store)
    as [c [st' [evs [Hrun [Hev Hfail]]]]].
  destruct (Hfail enoent eq_refl eq_refl) as [Hin Hc].
  exists st', evs. split; [| split; assumption].
  rewrite Hrun. f_equal. f_equal. exact Hc.
Defined.

Lemma getConfig_closes_descriptor_witness :
  ".jshintrc" <> ""
  /\ openSync (sample_fs "{bad") ".jshintrc" O_RDONLY = Ok 7
  /\ 0 <= 7
  /\ exists r st' mid,
       _getConfig sample_parse (sample_fs "{bad") (Some ".jshintrc")
                  initial_store = (r, st')
       /\ events st'
          = events initial_store
            ++ FsOpen ".jshintrc" O_RDONLY :: mid ++ [FsClose 7]
       /\ existsb is_open mid = false
       /\ existsb is_close mid = false.
Proof.
  assert (Hp : ".jshintrc" <> "") by discriminate.
  assert (Hd : 0 <= 7) by discriminate.
  split; [exact Hp |]. split; [reflexivity |]. split; [exact Hd |].
  exact (getConfig_closes_descriptor sample_parse (sample_fs "{bad")
           ".jshintrc" initial_store 7 Hp eq_refl Hd).
Defined.

Lemma other_requests_get_greeting_witness :
  (url {| url := "/"; method := "GET" |} <> "/check"
   \/ toUpperCase (method {| url := "/"; method := "GET" |}) <> "POST")
  /\ on_request sample_parse sample_hinters empty_fs 10 25
       {| url := "/"; method := "GET" |} sample_fields initial_store
     = (Ok {| statusCode := 200;
              headers := [("Content-Type", "text/plain")];
              body := "hello from jshint-mode" |},
        initial_store).
Proof.
  assert (H : url {| url := "/"; method := "GET" |} <> "/check"
              \/ toUpperCase (method {| url := "/"; method := "GET" |}) <> "POST")
    by (left; discriminate).
  split; [exact H |].
  exact (other_requests_get_greeting sample_parse sample_hinters empty_fs 10 25
           {| url := "/"; method := "GET" |} sample_fields initial_store H).
Defined.

Lemma address_in_use_retries_or_exits_witness :
  errno eaddrinuse = "EADDRINUSE"
  /\ port (start 3003 3004 "127.0.0.1") < lastPort (start 3003 3004 "127.0.0.1")
  /\ valid_port (port (start 3003 3004 "127.0.0.1") + 1) = true
  /\ port (on_error eaddrinuse (start 3003 3004 "127.0.0.1")) = 3004
  /\ lastPort (start 3004 3004 "127.0.0.1") <= port (start 3004 3004 "127.0.0.1")
  /\ status (on_error eaddrinuse (start 3004 3004 "127.0.0.1")) = Exited 2.
Proof.
  assert (H1 : port (start 3003 3004 "127.0.0.1")
               < lastPort (start 3003 3004 "127.0.0.1")) by reflexivity.
  assert (H2 : lastPort (start 3004 3004 "127.0.0.1")
               <= port (start 3004 3004 "127.0.0.1")) by discriminate.
  split; [reflexivity |]. split; [exact H1 |]. split; [reflexivity |].
  split.
  - rewrite (proj1 (address_in_use_retries_or_exits
                      eaddrinuse (start 3003 3004 "127.0.0.1") eq_refl)
               H1 eq_refl).
    reflexivity.
  - split; [exact H2 |].
    rewrite (proj1 (proj2 (address_in_use_retries_or_exits
                             eaddrinuse (start 3004 3004 "127.0.0.1") eq_refl))
               H2).
    reflexivity.
Defined.

Lemma listening_announces_bound_port_witness :
  status (run (taken_below 3005) 3 (start 3003 3010 "127.0.0.1")) = Listening
  /\ port (run (taken_below 3005) 3 (start 3003 3010 "127.0.0.1")) = 3005
  /\ exists pre,
       history (run (taken_below 3005) 3 (start 3003 3010 "127.0.0.1"))
       = pre ++ [Listen 3005 "127.0.0.1";
                 Stdout ("Started JSHint server at http://127.0.0.1:3005."
                         +:+ nl)].
Proof.
  split; [reflexivity |]. split; [reflexivity |].
  exact (proj2 (proj2 (listening_announces_bound_port
                         (taken_below 3005) 3003 3010 "127.0.0.1" 3) eq_refl)).
Defined.

(* ================================================================== *)
(** * Further properties of the report *)
(* ================================================================== *)

(** X1. The pattern of [outputErrors] matches every string, so the
    replacement never leaves a string as it is for want of a match; its
    capture is the only string that is the input without the whitespace
    at its two ends. *)
Theorem trim_pattern_matches_every_string (s : string) :
  exists t,
    exec_trim s = Some t
    /\ replace_trim s = t
    /\ is_trim_of s t
    /\ (forall t', is_trim_of s t' -> t' = t).
Proof.
  exists (strip_whitespace s).
  split; [apply exec_trim_strip |].
  split; [apply replace_trim_strip |].
  split; [apply strip_whitespace_spec |].
  intros t' H. now apply is_trim_of_unique.
Qed.

(** X2. The replacement changes a string exactly when the string starts
    or ends with whitespace, and applying it twice is applying it
    once. *)
Theorem replace_trim_fixed_points (s : string) :
  (replace_trim s = s
   <-> starts_with_space s = false /\ ends_with_space s = false)
  /\ replace_trim (replace_trim s) = replace_trim s.
Proof.
  assert (Hfix : forall x,
             starts_with_space x = false -> ends_with_space x = false ->
             replace_trim x = x).
  { intros x Hh Ht. rewrite replace_trim_strip. symmetry.
    apply is_trim_of_unique. exists "", "".
    rewrite app_empty_l, app_empty_r. now repeat split. }
  split.
  - split.
    + intros H. rewrite replace_trim_strip in H.
      destruct (strip_whitespace_spec s) as [l [r [_ [_ [_ [Hh Ht]]]]]].
      rewrite H in Hh, Ht. now split.
    + intros [Hh Ht]. now apply Hfix.
  - rewrite (replace_trim_strip s).
    destruct (strip_whitespace_spec s) as [l [r [_ [_ [_ [Hh Ht]]]]]].
    now apply Hfix.
Qed.

Lemma finding_block_starts (showCode : bool) (f : Finding) :
  exists tail, finding_block showCode f = "Lint at line " +:+ tail.
Proof.
  unfold finding_block, finding_line. eexists.
  rewrite !app_assoc3. reflexivity.
Qed.

(** X3. The report of a failed run is empty exactly when the findings
    hold no truthy slot; otherwise it starts with [Lint at line]. *)
Theorem report_empty_iff_no_finding
        (errors : list (option Finding)) (showCode : bool) :
  (outputErrors errors showCode = "" <-> truthy_findings errors = [])
  /\ (truthy_findings errors <> [] ->
      exists tail, outputErrors errors showCode = "Lint at line " +:+ tail).
Proof.
  rewrite outputErrors_blocks.
  destruct (truthy_findings errors) as [|f rest].
  - split; [split; reflexivity | intros H; contradiction].
  - simpl map. rewrite join_cons.
    destruct (finding_block_starts showCode f) as [tail Ht]. rewrite Ht.
    split.
    + split; [| discriminate].
      rewrite app_assoc3. discriminate.
    + intros _. exists (tail +:+ join (map (finding_block showCode) rest)).
      now rewrite app_assoc3.
Qed.

(** X4. The report of two findings arrays one after the other is the
    report of the first followed by the report of the second, and falsy
    slots may be dropped anywhere without changing the report. *)
Theorem report_of_concatenation
        (a b : list (option Finding)) (showCode : bool) :
  outputErrors (a ++ b) showCode
  = outputErrors a showCode +:+ outputErrors b showCode
  /\ outputErrors (a ++ None :: b) showCode = outputErrors (a ++ b) showCode.
Proof.
  split; [apply outputErrors_app |].
  rewrite !outputErrors_blocks, !truthy_findings_app. reflexivity.
Qed.

(* ================================================================== *)
(** * Further properties of comment stripping *)
(* ================================================================== *)

Lemma has_pair_cons (a b c d : ascii) (t : string) :
  has_pair a b (String c (String d t))
  = (is_char a c && is_char b d) || has_pair a b (String d t).
Proof. reflexivity. Qed.

Lemma strip_block_comments_id (fuel : nat) :
  forall s, has_pair "/" "*" s = false -> strip_block_comments fuel s = s.
Proof.
  induction fuel as [|fuel IH]; intros s H; [reflexivity |].
  destruct s as [|c t]; [reflexivity |].
  destruct t as [|d t']; [reflexivity |].
  cbn [strip_block_comments]. fold strip_block_comments.
  rewrite has_pair_cons in H.
  apply orb_false_elim in H as [H1 H2]. rewrite H1.
  f_equal. now apply IH.
Qed.

Lemma strip_line_comments_id (fuel : nat) :
  forall s, has_pair "/" "/" s = false -> strip_line_comments fuel s = s.
Proof.
  induction fuel as [|fuel IH]; intros s H; [reflexivity |].
  destruct s as [|c t]; [reflexivity |].
  destruct t as [|d t']; [reflexivity |].
  cbn [strip_line_comments]. fold strip_line_comments.
  rewrite has_pair_cons in H.
  apply orb_false_elim in H as [H1 H2]. rewrite H1.
  f_equal. now apply IH.
Qed.

(** X5. A text in which no slash is followed by a star or by a slash
    comes back as it is. *)
Theorem removeJsComments_without_comment (s : string) :
  has_pair "/" "*" s = false ->
  has_pair "/" "/" s = false ->
  _removeJsComments s = s.
Proof.
  intros Hb Hl. unfold _removeJsComments.
  assert (Hs : or_default (Some s) "" = s).
  { simpl. destruct (String.eqb_spec s ""); [now subst | reflexivity]. }
  rewrite Hs. cbv zeta.
  rewrite (strip_block_comments_id _ _ Hb).
  now apply strip_line_comments_id.
Qed.

Lemma strip_line_comments_head (fuel : nat) (d : ascii) (t : string) :
  is_char "/" d = false ->
  exists rest, strip_line_comments fuel (String d t) = String d rest.
Proof.
  intros Hd. destruct fuel as [|fuel]; [now exists t |].
  destruct t as [|e t']; [now exists "" |].
  cbn [strip_line_comments]. fold strip_line_comments.
  rewrite Hd. simpl. now eexists.
Qed.

Lemma strip_line_comments_no_pair (fuel : nat) :
  forall s,
    (String.length s <= fuel)%nat ->
    has_pair "/" "/" (strip_line_comments fuel s) = false.
Proof.
  induction fuel as [|fuel IH]; intros s Hlen.
  - destruct s; [reflexivity | simpl in Hlen; lia].
  - destruct s as [|c t]; [reflexivity |].
    destruct t as [|d t']; [reflexivity |].
    cbn [strip_line_comments]. fold strip_line_comments.
    simpl in Hlen.
    destruct (is_char "/" c && is_char "/" d) eqn:E.
    + apply IH. pose proof (skip_line_length t'). lia.
    + assert (Hrest : has_pair "/" "/" (strip_line_comments fuel (String d t'))
                      = false) by (apply IH; simpl; lia).
      destruct (is_char "/" d) eqn:Hd.
      * (* then [c] is no slash *)
        rewrite andb_true_r in E.
        destruct (strip_line_comments fuel (String d t')) as [|x y];
          [reflexivity |].
        now rewrite has_pair_cons, E, Hrest.
      * destruct (strip_line_comments_head fuel d t' Hd) as [rest Hr].
        rewrite Hr in *.
        now rewrite has_pair_cons, Hd, andb_false_r, Hrest.
Qed.

(** X6. No two slashes in a row are left in the result: every line
    comment is gone, and so is everything else that looks like one. *)
Theorem removeJsComments_leaves_no_line_comment (s : string) :
  has_pair "/" "/" (_removeJsComments s) = false.
Proof.
  unfold _removeJsComments. cbv zeta.
  apply strip_line_comments_no_pair. lia.
Qed.

Lemma after_close_cons (c d : ascii) (t : string) :
  after_close (String c (String d t))
  = if is_char "*" c && is_char "/" d then Some t
    else after_close (String d t).
Proof. reflexivity. Qed.

Lemma after_close_found (body rest : string) :
  has_pair "*" "/" body = false ->
  after_close (body +:+ "*/" +:+ rest) = Some rest.
Proof.
  induction body as [|c t IH]; intros H; [reflexivity |].
  rewrite app_cons.
  destruct t as [|d t'].
  - rewrite app_empty_l.
    change ("*/" +:+ rest) with (String "*" (String "/" rest)).
    rewrite after_close_cons.
    change (is_char "/" "*") with false. rewrite andb_false_r.
    reflexivity.
  - rewrite app_cons, after_close_cons.
    rewrite has_pair_cons in H.
    apply orb_false_elim in H as [H1 H2]. rewrite H1.
    rewrite <- app_cons. now apply IH.
Qed.

Lemma or_default_some (s : string) : or_default (Some s) "" = s.
Proof. simpl. destruct (String.eqb_spec s ""); [now subst | reflexivity]. Qed.

Lemma app_length (a b : string) :
  String.length (a +:+ b) = (String.length a + String.length b)%nat.
Proof.
  induction a as [|c a IH]; [reflexivity |].
  rewrite app_cons. simpl. now rewrite IH.
Qed.

Lemma strip_block_comments_cons (fuel : nat) (c d : ascii) (t : string) :
  strip_block_comments (S fuel) (String c (String d t))
  = if is_char "/" c && is_char "*" d then
      match after_close t with
      | Some rest => strip_block_comments fuel rest
      | None => String c (strip_block_comments fuel (String d t))
      end
    else String c (strip_block_comments fuel (String d t)).
Proof. reflexivity. Qed.

(** X7. A block comment at the start of the text, whatever it holds
    (line ends, slashes, stars) before its first closing mark, is
    removed whole: the result is that of the text after it. *)
Theorem removeJsComments_leading_block (body rest : string) :
  has_pair "*" "/" body = false ->
  _removeJsComments ("/*" +:+ body +:+ "*/" +:+ rest) = _removeJsComments rest.
Proof.
  intros H. unfold _removeJsComments. rewrite !or_default_some. cbv zeta.
  assert (Hb : strip_block_comments
                 (String.length ("/*" +:+ body +:+ "*/" +:+ rest))
                 ("/*" +:+ body +:+ "*/" +:+ rest)
               = strip_block_comments (String.length rest) rest).
  { change ("/*" +:+ body +:+ "*/" +:+ rest)
      with (String "/" (String "*" (body +:+ "*/" +:+ rest))).
    change (String.length (String "/" (String "*" (body +:+ "*/" +:+ rest))))
      with (S (S (String.length (body +:+ "*/" +:+ rest)))).
    rewrite strip_block_comments_cons.
    change (is_char "/" "/" && is_char "*" "*") with true. cbv iota.
    rewrite (after_close_found _ _ H).
    apply strip_block_comments_fuel; [lia |].
    rewrite !app_length. lia. }
  now rewrite Hb.
Qed.

Lemma strip_line_comments_cons (fuel : nat) (c d : ascii) (t : string) :
  strip_line_comments (S fuel) (String c (String d t))
  = if is_char "/" c && is_char "/" d
    then strip_line_comments fuel (skip_line t)
    else String c (strip_line_comments fuel (String d t)).
Proof. reflexivity. Qed.

Lemma strip_block_comments_head (fuel : nat) (e : ascii) (t : string) :
  is_char "/" e = false ->
  exists rest, strip_block_comments fuel (String e t) = String e rest.
Proof.
  intros He. destruct fuel as [|fuel]; [now exists t |].
  destruct t as [|d t']; [now exists "" |].
  rewrite strip_block_comments_cons, He. simpl. now eexists.
Qed.

Lemma has_pair_slash_free (x : ascii) (a y : string) :
  all_chars not_slash a = true ->
  has_pair "/" x (a +:+ y) = has_pair "/" x y.
Proof.
  induction a as [|c t IH]; intros H; [reflexivity |].
  simpl in H. apply andb_prop in H as [Hc Ht].
  unfold not_slash in Hc. apply negb_true_iff in Hc.
  rewrite app_cons.
  destruct (t +:+ y) as [|d u] eqn:E.
  - rewrite <- (IH Ht). reflexivity.
  - rewrite has_pair_cons, Hc. cbn [andb orb]. now apply IH.
Qed.

(** Text without an opening mark passes the block stage as it is, up to
    a point where no opening mark can straddle. *)
Lemma strip_block_comments_prefix (x : string) :
  forall fuel y,
    has_pair "/" "*" x = false ->
    match y with String e _ => is_char "*" e = false | EmptyString => True end ->
    (String.length (x +:+ y) <= fuel)%nat ->
    strip_block_comments fuel (x +:+ y)
    = x +:+ strip_block_comments (String.length y) y.
Proof.
  induction x as [|c t IH]; intros fuel y Hx Hy Hlen.
  - rewrite !app_empty_l in *. apply strip_block_comments_fuel; lia.
  - rewrite !app_cons in *. simpl in Hlen.
    destruct fuel as [|fuel]; [lia |].
    destruct t as [|d t'].
    + rewrite app_empty_l in *.
      destruct y as [|e rest].
      * reflexivity.
      * rewrite strip_block_comments_cons, Hy, andb_false_r.
        f_equal. apply strip_block_comments_fuel; simpl in *; lia.
    + rewrite has_pair_cons in Hx. apply orb_false_elim in Hx as [H1 H2].
      rewrite app_cons, strip_block_comments_cons, H1.
      f_equal. rewrite <- app_cons. apply IH; try assumption.
      rewrite app_cons. simpl. rewrite app_cons in Hlen. simpl in Hlen. lia.
Qed.

Lemma strip_line_comments_prefix (a : string) :
  forall fuel z,
    all_chars not_slash a = true ->
    (String.length (a +:+ z) <= fuel)%nat ->
    strip_line_comments fuel (a +:+ z)
    = a +:+ strip_line_comments (String.length z) z.
Proof.
  induction a as [|c t IH]; intros fuel z Ha Hlen.
  - rewrite !app_empty_l in *. apply strip_line_comments_fuel; lia.
  - simpl in Ha. apply andb_prop in Ha as [Hc Ht].
    unfold not_slash in Hc. apply negb_true_iff in Hc.
    rewrite !app_cons in *. simpl in Hlen.
    destruct fuel as [|fuel]; [lia |].
    destruct (t +:+ z) as [|d u] eqn:E.
    + destruct t; [| discriminate]. rewrite app_empty_l in E. subst z.
      reflexivity.
    + rewrite strip_line_comments_cons, Hc. cbn [andb].
      f_equal. rewrite <- E. apply IH; [exact Ht |]. rewrite E. lia.
Qed.

Lemma skip_line_cons (c : ascii) (t : string) :
  skip_line (String c t) = if is_line_end c then String c t else skip_line t.
Proof. reflexivity. Qed.

Lemma skip_line_comment (b tail : string) :
  all_chars not_line_end b = true ->
  ends_line tail = true ->
  skip_line (b +:+ tail) = tail.
Proof.
  induction b as [|c t IH]; intros Hb Ht.
  - rewrite app_empty_l. destruct tail as [|e rest]; [reflexivity |].
    simpl in Ht. now rewrite skip_line_cons, Ht.
  - simpl in Hb. apply andb_prop in Hb as [Hc Hb].
    unfold not_line_end in Hc. apply negb_true_iff in Hc.
    rewrite app_cons, skip_line_cons, Hc. now apply IH.
Qed.

(** X8. After text without slashes, a line comment that holds no
    opening mark of a block comment is removed up to the end of its
    line; the line end stays and what follows is stripped on its own. *)
Theorem removeJsComments_line_comment (a b tail : string) :
  all_chars not_slash a = true ->
  has_pair "/" "*" ("/" +:+ b) = false ->
  all_chars not_line_end b = true ->
  ends_line tail = true ->
  _removeJsComments (a +:+ "//" +:+ b +:+ tail) = a +:+ _removeJsComments tail.
Proof.
  intros Ha Hb Hnl Ht.
  unfold _removeJsComments. rewrite !or_default_some. cbv zeta.
  set (Y := strip_block_comments (String.length tail) tail).
  assert (HY : ends_line Y = true).
  { subst Y. destruct tail as [|e rest]; [reflexivity |].
    simpl in Ht.
    assert (He : is_char "/" e = false).
    { unfold is_line_end in Ht. apply orb_prop in Ht as [H | H];
        apply Ascii.eqb_eq in H; subst e; reflexivity. }
    destruct (strip_block_comments_head (String.length (String e rest)) e rest He)
      as [r Hr].
    rewrite Hr. exact Ht. }
  assert (Hblock : strip_block_comments
                     (String.length (a +:+ "//" +:+ b +:+ tail))
                     (a +:+ "//" +:+ b +:+ tail)
                   = a +:+ "//" +:+ b +:+ Y).
  { rewrite <- !app_assoc3.
    rewrite strip_block_comments_prefix; [reflexivity | | | lia].
    - rewrite !app_assoc3, has_pair_slash_free by exact Ha.
      change ("//" +:+ b) with (String "/" ("/" +:+ b)).
      change ("/" +:+ b) with (String "/" b) in *.
      now rewrite has_pair_cons, Hb.
    - destruct tail as [|e rest]; [exact I |].
      simpl in Ht. unfold is_line_end in Ht.
      apply orb_prop in Ht as [H | H];
        apply Ascii.eqb_eq in H; subst e; reflexivity. }
  rewrite Hblock.
  rewrite strip_line_comments_prefix; [| exact Ha | lia].
  f_equal.
  change ("//" +:+ b +:+ Y) with (String "/" (String "/" (b +:+ Y))).
  change (String.length (String "/" (String "/" (b +:+ Y))))
    with (S (S (String.length (b +:+ Y)))).
  rewrite strip_line_comments_cons.
  change (is_char "/" "/" && is_char "/" "/") with true. cbv iota.
  rewrite (skip_line_comment _ _ Hnl HY).
  apply strip_line_comments_fuel; [lia |].
  rewrite app_length. lia.
Qed.

(* ================================================================== *)
(** * Further properties of the configuration cache *)
(* ================================================================== *)

(** X9. A call for a path other than [__proto__], whose assignment
    would replace the prototype of the cache, reads and writes the cache
    at the key of its path only: the entry of every other key is what it
    was. *)
Theorem getConfig_other_keys_untouched
        (JSON_parse : string -> outcome json) (fs : FS)
        (filePath : option string) (st : Store) (q : string) :
  to_string filePath <> "__proto__" ->
  q <> to_string filePath ->
  exists r st',
    _getConfig JSON_parse fs filePath st = (r, st')
    /\ _cache st' !! q = _cache st !! q.
Proof.
  intros _ Hq. destruct (truthy filePath) eqn:Ht.
  - destruct (truthy_inv _ Ht) as [path [-> Hp]]. simpl in Hq.
    destruct (getConfig_returns JSON_parse fs path st Hp) as [e [n [evs H]]].
    rewrite H. unfold finish. eexists _, _. split; [reflexivity |].
    simpl. apply lookup_insert_ne. congruence.
  - rewrite (getConfig_falsy _ _ _ _ Ht). eexists _, _.
    split; [reflexivity |]. simpl. apply lookup_insert_ne. congruence.
Qed.


(** X11. Two calls in a row for a file that loads and does not change:
    the second returns the very object the first returned, reads and
    parses nothing, and leaves the cache as the first left it. *)
Theorem getConfig_second_call_reuses
        (JSON_parse : string -> outcome json) (fs : FS) (path : string)
        (st : Store) (d : Z) (s : Stats) :
  path <> "" ->
  openSync fs path O_RDONLY = Ok d ->
  fstatSync fs d = Ok s ->
  load_failure JSON_parse fs path (stored_stat st path) = None ->
  exists c st1 st2 evs,
    _getConfig JSON_parse fs (Some path) st = (Ok c, st1)
    /\ _getConfig JSON_parse fs (Some path) st1 = (Ok c, st2)
    /\ events st2 = events st1 ++ evs
    /\ existsb is_read evs = false
    /\ existsb is_parse evs = false
    /\ _cache st2 = _cache st1
    /\ next_ref st2 = next_ref st1.
Proof.
  intros Hp Ho Hs Hf.
  assert (Hsecond : forall (c : Config) (st1 : Store),
             _cache st1 !! path = Some {| cfg := c; stat := Some s |} ->
             exists st2 evs,
               _getConfig JSON_parse fs (Some path) st1 = (Ok c, st2)
               /\ events st2 = events st1 ++ evs
               /\ existsb is_read evs = false
               /\ existsb is_parse evs = false
               /\ _cache st2 = _cache st1
               /\ next_ref st2 = next_ref st1).
  { intros c st1 H1.
    rewrite (getConfig_truthy _ _ _ _ Hp), Ho, Hs. cbv zeta.
    unfold prev_entry, prev_next_ref. rewrite H1. simpl stat.
    rewrite statChanged_same by reflexivity. unfold finish. simpl cfg.
    eexists _, _. split; [reflexivity |]. split; [reflexivity |].
    split; [simpl; now apply existsb_close_events |].
    split; [simpl; now apply existsb_close_events |].
    split; [simpl; now apply insert_id | reflexivity]. }
  unfold load_failure in Hf. rewrite Ho, Hs in Hf.
  rewrite (getConfig_truthy _ _ _ _ Hp), Ho, Hs. cbv zeta.
  rewrite stat_prev_entry.
  destruct (_statChanged s (stored_stat st path)).
  - destruct (readFileSync fs d) as [content|e]; [| discriminate].
    destruct (JSON_parse (_removeJsComments content)) as [v|e];
      [| discriminate].
    unfold finish.
    edestruct Hsecond as [st2 [evs H2]];
      [| eexists _, _, st2, evs; split; [reflexivity | exact H2]].
    simpl. apply lookup_insert_eq.
  - unfold finish.
    edestruct Hsecond as [st2 [evs H2]];
      [| eexists _, _, st2, evs; split; [reflexivity | exact H2]].
    simpl. apply lookup_insert_eq.
Qed.


(** X13. Without a path (the field absent or empty) a call touches no
    file and prints nothing; it returns a new empty object and stores it
    under the key of the absent path, so the next such call returns yet
    another object. *)
Theorem getConfig_without_path
        (JSON_parse : string -> outcome json) (fs : FS)
        (filePath : option string) (st : Store) :
  truthy filePath = false ->
  exists c1 st1 c2 st2,
    _getConfig JSON_parse fs filePath st = (Ok c1, st1)
    /\ _getConfig JSON_parse fs filePath st1 = (Ok c2, st2)
    /\ events st2 = events st
    /\ cfg_val c1 = empty_object
    /\ cfg_val c2 = empty_object
    /\ cfg_ref c1 <> cfg_ref c2
    /\ _cache st1 !! to_string filePath = Some {| cfg := c1; stat := None |}
    /\ _cache st2 !! to_string filePath = Some {| cfg := c2; stat := None |}.
Proof.
  intros Ht. rewrite (getConfig_falsy _ _ _ _ Ht).
  eexists _, _. rewrite (getConfig_falsy _ _ _ _ Ht).
  eexists _, _. split; [reflexivity |]. split; [reflexivity |].
  simpl. rewrite !lookup_insert_eq. repeat split; lia.
Qed.

(** X14. Comments in the file do not show: on two file systems that
    agree except that the contents differ in comments only, a call does
    the same, prints the same and leaves the same state. *)
Theorem getConfig_blind_to_comments
        (JSON_parse : string -> outcome json) (fs1 fs2 : FS) (path : string)
        (st : Store) :
  path <> "" ->
  same_up_to_comments fs1 fs2 path ->
  _getConfig JSON_parse fs1 (Some path) st
  = _getConfig JSON_parse fs2 (Some path) st.
Proof.
  intros Hp [Ho [Hs Hr]].
  rewrite !(getConfig_truthy _ _ _ _ Hp), Ho. cbv zeta.
  destruct (openSync fs2 path O_RDONLY) as [d|e]; [| reflexivity].
  rewrite Hs. destruct (fstatSync fs2 d) as [s|e]; [| reflexivity].
  destruct (_statChanged s (stat (prev_entry st path))); [| reflexivity].
  specialize (Hr d).
  destruct (readFileSync fs1 d) as [c1|e1], (readFileSync fs2 d) as [c2|e2];
    try contradiction.
  - now rewrite Hr.
  - now subst.
Qed.

(* ================================================================== *)
(** * Further properties of the request handler *)
(* ================================================================== *)

Lemma getConfig_events (JSON_parse : string -> outcome json) (fs : FS)
      (filePath : option string) (st : Store) :
  exists c st' evs,
    _getConfig JSON_parse fs filePath st = (Ok c, st')
    /\ events st' = events st ++ evs.
Proof.
  destruct (truthy filePath) eqn:Ht.
  - destruct (truthy_inv _ Ht) as [path [-> Hp]].
    destruct (getConfig_returns JSON_parse fs path st Hp) as [e [n [evs H]]].
    rewrite H. unfold finish. now eexists _, _, evs.
  - rewrite (getConfig_falsy _ _ _ _ Ht). eexists _, _, [].
    split; [reflexivity |]. simpl. now rewrite app_nil_r.
Qed.

(** X15. A check of a form without file name whose run passes: the two
    log lines, the first and the last thing the check prints, name the
    file [anonymous], while the body names it [undefined]. *)
Theorem check_without_filename
        (JSON_parse : string -> outcome json)
        (hinters : Mode -> option string -> Config -> LintRun)
        (fs : FS) (now later : Z) (fields : Fields) (st : Store) :
  f_filename fields = None ->
  (forall config,
     passed (hinters (select_mode fields) (f_source fields) config) = true) ->
  exists st' mid,
    on_form JSON_parse hinters fs now later fields st
    = (Ok {| statusCode := 200;
             headers := [("Content-Type", "text/plain")];
             body := "js: No problems found in undefined" +:+ nl |},
       st')
    /\ events st'
       = events st
         ++ ConsoleLog ("Applying '" +:+ mode_name (select_mode fields)
                        +:+ "' to: anonymous")
         :: mid
         ++ [ConsoleLog ("Took " +:+ number_to_string (later - now)
                         +:+ "ms to lint anonymous")].
Proof.
  intros Hn Hpass. unfold on_form, bind, emit, modify, ret. simpl.
  rewrite Hn. simpl or_default.
  match goal with
  | |- context [_getConfig JSON_parse fs ?p ?s] =>
      destruct (getConfig_events JSON_parse fs p s) as [c [st1 [evs [H He]]]];
      rewrite H
  end.
  unfold lintify. rewrite Hpass. simpl.
  eexists _, evs. split; [reflexivity |].
  simpl. rewrite He. simpl. rewrite <- !app_assoc. reflexivity.
Qed.

(* ================================================================== *)
(** * Further properties of the listener *)
(* ================================================================== *)

Lemma run_succ (net : Z -> string -> option ListenError) (n : nat)
      (l : Listener) :
  run net (S n) l = run net n (step net l).
Proof. reflexivity. Qed.

Lemma step_on_free_port (net : Z -> string -> option ListenError)
      (l : Listener) :
  status l = Binding -> net (port l) (host l) = None ->
  step net l = on_listening l.
Proof. intros Hs Hn. unfold step. now rewrite Hs, Hn. Qed.

Lemma step_on_port_in_use (net : Z -> string -> option ListenError)
      (l : Listener) :
  status l = Binding -> in_use net (host l) (port l) ->
  step net l
  = if port l >=? lastPort l then
      {| port := port l; lastPort := lastPort l; host := host l;
         status := Exited 2;
         history := history l ++
           [Stderr ("Error occurred during '"
                    +:+ match net (port l) (host l) with
                        | Some err => syscall err
                        | None => ""
                        end
                    +:+ "': "
                    +:+ match net (port l) (host l) with
                        | Some err => code err
                        | None => ""
                        end +:+ nl);
            ProcessExit 2] |}
    else
      {| port := port l + 1; lastPort := lastPort l; host := host l;
         status := Binding;
         history := history l ++ [Listen (port l + 1) (host l)] |}.
Proof.
  intros Hs [err [Hn He]]. unfold step. rewrite Hs, Hn.
  unfold on_error. rewrite He. simpl. reflexivity.
Qed.

Lemma run_binds_from (net : Z -> string -> option ListenError) (k : nat) :
  forall l n,
    status l = Binding ->
    (forall p, port l <= p < port l + Z.of_nat k -> in_use net (host l) p) ->
    net (port l + Z.of_nat k) (host l) = None ->
    k = 0%nat \/ port l + Z.of_nat k <= lastPort l ->
    (k < n)%nat ->
    status (run net n l) = Listening
    /\ port (run net n l) = port l + Z.of_nat k.
Proof.
  induction k as [|k IH]; intros l n Hs Hbusy Hfree Hrange Hn;
    (destruct n as [|n]; [lia |]); rewrite run_succ.
  - rewrite Z.add_0_r in Hfree.
    rewrite (step_on_free_port _ _ Hs Hfree).
    rewrite run_settled by (simpl; discriminate). simpl. split; [reflexivity | lia].
  - destruct Hrange as [Hk | Hrange]; [discriminate |].
    rewrite (step_on_port_in_use _ _ Hs) by (apply Hbusy; lia).
    replace (port l >=? lastPort l) with false
      by (symmetry; rewrite Z.geb_leb; apply Z.leb_gt; lia).
    match goal with
    | |- context [run net n ?l'] =>
        destruct (IH l' n) as [H1 H2]; simpl;
        [reflexivity | intros p Hp; apply Hbusy; lia
         | rewrite <- Hfree; f_equal; lia
         | destruct k; [now left | right; lia] | lia
         | split; [exact H1 | rewrite H2; simpl; lia]]
    end.
Qed.

(** X16. Where the runtime reports an address in use with the string
    [EADDRINUSE] as [errno], as Node up to version 12 does, and on ports
    that [listen] accepts, the listener binds the first free port: with
    the ports from the starting port up to some port failing that way
    and that port free, within the range or the starting port itself,
    every run long enough is listening on that port and its last output
    is the line that names it. *)
Theorem listener_binds_first_free_port
        (net : Z -> string -> option ListenError)
        (p0 lp : Z) (h : string) (k : Z) (n : nat) :
  0 <= p0 ->
  p0 + k <= 65535 ->
  0 <= k ->
  k = 0 \/ p0 + k <= lp ->
  (forall p, p0 <= p < p0 + k -> in_use net h p) ->
  net (p0 + k) h = None ->
  (Z.to_nat k < n)%nat ->
  status (run net n (start p0 lp h)) = Listening
  /\ port (run net n (start p0 lp h)) = p0 + k
  /\ exists pre,
       history (run net n (start p0 lp h))
       = pre ++ [Listen (p0 + k) h; Stdout (started_line h (p0 + k))].
Proof.
  intros _ _ Hk Hrange Hbusy Hfree Hn.
  destruct (run_binds_from net (Z.to_nat k) (start p0 lp h) n) as [Hs Hp];
    simpl; rewrite ?Z2Nat.id by lia; try assumption.
  { reflexivity. }
  { destruct Hrange as [-> | H]; [now left | now right]. }
  simpl in Hp. rewrite Z2Nat.id in Hp by lia.
  split; [exact Hs |]. split; [exact Hp |].
  assert (H : announces_port net h (run net n (start p0 lp h))).
  { apply run_announces_port. split; [reflexivity |]. simpl. now exists []. }
  destruct H as [_ H]. rewrite Hs, Hp in H. now destruct H.
Qed.

Lemma run_exits_from (net : Z -> string -> option ListenError) (k : nat) :
  forall l n,
    status l = Binding ->
    Z.to_nat (lastPort l - port l) = k ->
    (forall p, port l <= p <= Z.max (port l) (lastPort l) ->
               in_use net (host l) p) ->
    (k < n)%nat ->
    status (run net n l) = Exited 2
    /\ port (run net n l) = Z.max (port l) (lastPort l)
    /\ exists pre text,
         history (run net n l) = pre ++ [Stderr text; ProcessExit 2].
Proof.
  induction k as [|k IH]; intros l n Hs Hk Hbusy Hn;
    (destruct n as [|n]; [lia |]); rewrite run_succ;
    rewrite (step_on_port_in_use _ _ Hs) by (apply Hbusy; lia).
  - replace (port l >=? lastPort l) with true
      by (symmetry; rewrite Z.geb_leb; apply Z.leb_le; lia).
    rewrite run_settled by (simpl; discriminate). simpl.
    split; [reflexivity |]. split; [lia |]. now eexists _, _.
  - replace (port l >=? lastPort l) with false
      by (symmetry; rewrite Z.geb_leb; apply Z.leb_gt; lia).
    match goal with
    | |- context [run net n ?l'] =>
        destruct (IH l' n) as [H1 [H2 H3]]; simpl;
        [reflexivity | lia | intros p Hp; apply Hbusy; lia | lia
         | split; [exact H1 | split; [rewrite H2; simpl; lia | exact H3]]]
    end.
Qed.

(** X17. Where the runtime reports an address in use with the string
    [EADDRINUSE] as [errno], as Node up to version 12 does, and on ports
    that [listen] accepts: with every port from the starting port to
    [lastPort] failing that way (the starting port alone when it is
    beyond [lastPort]), every run long enough has exited with status 2
    after printing the failure on stderr, on the last port of the
    range. *)
Theorem listener_exits_when_range_in_use
        (net : Z -> string -> option ListenError)
        (p0 lp : Z) (h : string) (n : nat) :
  0 <= p0 ->
  Z.max p0 lp <= 65535 ->
  (forall p, p0 <= p <= Z.max p0 lp -> in_use net h p) ->
  (Z.to_nat (lp - p0) < n)%nat ->
  status (run net n (start p0 lp h)) = Exited 2
  /\ port (run net n (start p0 lp h)) = Z.max p0 lp
  /\ exists pre text,
       history (run net n (start p0 lp h))
       = pre ++ [Stderr text; ProcessExit 2].
Proof.
  intros _ _ Hbusy Hn.
  now apply (run_exits_from net (Z.to_nat (lp - p0)) (start p0 lp h) n).
Qed.

Lemma step_tried_ports_in_use (net : Z -> string -> option ListenError)
      (h : string) (l : Listener) :
  tried_ports_in_use net h l -> tried_ports_in_use net h (step net l).
Proof.
  intros [Hh Hs]. unfold step.
  destruct (status l) eqn:Est;
    try (split; [exact Hh | now rewrite Est]).
  destruct Hs as [pre [Hpre Hall]].
  destruct (net (port l) (host l)) as [err|] eqn:En.
  - unfold on_error. destruct (strict_equals_spec (errno err) "EADDRINUSE") as [He | He].
    + assert (Hin : in_use net h (port l)).
      { exists err. rewrite <- Hh. now split. }
      destruct (port l >=? lastPort l) eqn:E.
      * split; [exact Hh |]. simpl. split; [reflexivity |].
        split; [rewrite Z.geb_leb in E; now apply Z.leb_le |].
        rewrite bind_attempts_app, Hpre. simpl. rewrite app_nil_r.
        apply Forall_app. split; [exact Hall | now constructor].
      * split; [exact Hh |]. simpl. exists (pre ++ [port l]).
        rewrite bind_attempts_app, Hpre. split; [reflexivity |].
        apply Forall_app. split; [exact Hall | now constructor].
    + split; [exact Hh | exact I].
  - split; [exact Hh | exact I].
Qed.

Lemma run_tried_ports_in_use (net : Z -> string -> option ListenError)
      (h : string) (n : nat) :
  forall l, tried_ports_in_use net h l -> tried_ports_in_use net h (run net n l).
Proof.
  induction n as [|n IH]; intros l H; [exact H |].
  rewrite run_succ. apply IH. now apply step_tried_ports_in_use.
Qed.

(** X18. The listener calls [process.exit] only with status 2, and only
    when every port it tried was in use and the last one was at or
    beyond [lastPort]. *)
Theorem listener_exit_means_range_in_use
        (net : Z -> string -> option ListenError)
        (p0 lp : Z) (h : string) (n : nat) (c : Z) :
  status (run net n (start p0 lp h)) = Exited c ->
  c = 2
  /\ lp <= port (run net n (start p0 lp h))
  /\ Forall (in_use net h)
            (bind_attempts (history (run net n (start p0 lp h)))).
Proof.
  intros Hs.
  assert (H : tried_ports_in_use net h (run net n (start p0 lp h))).
  { apply run_tried_ports_in_use. split; [reflexivity |]. simpl.
    exists []. split; [reflexivity | constructor]. }
  destruct H as [_ H]. rewrite Hs in H. destruct H as [Hc [Hp Hall]].
  split; [exact Hc |]. split; [| exact Hall].
  destruct (run_attempts_bounded net p0 lp n (start p0 lp h)) as [Hlp _].
  { split; [reflexivity |]. exists []. split; [reflexivity | constructor]. }
  lia.
Qed.


Lemma step_globals_in_range (net : Z -> string -> option ListenError)
      (p0 lp : Z) (h : string) (l : Listener) :
  globals_in_range p0 lp h l -> globals_in_range p0 lp h (step net l).
Proof.
  intros [Hlp [Hh Hp]]. unfold step.
  destruct (status l); try (now repeat split).
  destruct (net (port l) (host l)) as [err|]; [| now repeat split].
  unfold on_error. destruct (strict_equals (errno err) "EADDRINUSE");
    [| now repeat split].
  destruct (port l >=? lastPort l) eqn:E; [now repeat split |].
  rewrite Z.geb_leb in E. apply Z.leb_gt in E.
  repeat split; simpl; try assumption; lia.
Qed.

Lemma run_globals_in_range (net : Z -> string -> option ListenError)
      (p0 lp : Z) (h : string) (n : nat) :
  forall l, globals_in_range p0 lp h l -> globals_in_range p0 lp h (run net n l).
Proof.
  induction n as [|n IH]; intros l Hl; [exact Hl |].
  rewrite run_succ. apply IH. now apply step_globals_in_range.
Qed.

(** X20. Along every run the host and [lastPort] keep their initial
    values, and the port stays between the starting port and the larger
    of the starting port and [lastPort]. *)
Theorem listener_globals_stay_in_range
        (net : Z -> string -> option ListenError)
        (p0 lp : Z) (h : string) (n : nat) :
  lastPort (run net n (start p0 lp h)) = lp
  /\ host (run net n (start p0 lp h)) = h
  /\ p0 <= port (run net n (start p0 lp h)) <= Z.max p0 lp.
Proof.
  apply (run_globals_in_range net p0 lp h n (start p0 lp h)).
  repeat split; simpl; lia.
Qed.

Lemma stdout_lines_app (a b : list ProcEvent) :
  stdout_lines (a ++ b) = stdout_lines a ++ stdout_lines b.
Proof.
  induction a as [|e a IH]; [reflexivity |].
  destruct e; simpl; now rewrite IH.
Qed.

Lemma step_stdout_announces (net : Z -> string -> option ListenError)
      (l : Listener) :
  stdout_announces l -> stdout_announces (step net l).
Proof.
  unfold stdout_announces, step. intros H.
  destruct (status l) eqn:Est; try (now rewrite Est).
  destruct (net (port l) (host l)) as [err|].
  - unfold on_error. destruct (strict_equals (errno err) "EADDRINUSE").
    + destruct (port l >=? lastPort l); simpl;
        rewrite stdout_lines_app, H; reflexivity.
    + simpl. exact H.
  - simpl. rewrite stdout_lines_app, H. reflexivity.
Qed.

(** X21. What the listener itself prints on stdout: nothing while it
    tries ports or after it gave up, and, once the server listens, the
    single line that announces the bound port; so that line comes first
    on stdout. *)
Theorem listener_stdout_is_the_announcement
        (net : Z -> string -> option ListenError)
        (p0 lp : Z) (h : string) (n : nat) :
  stdout_lines (history (run net n (start p0 lp h)))
  = match status (run net n (start p0 lp h)) with
    | Listening =>
        ["Started JSHint server at http://" +:+ h +:+ ":"
         +:+ number_to_string (port (run net n (start p0 lp h)))
         +:+ "." +:+ nl]
    | _ => []
    end.
Proof.
  assert (H : forall l, stdout_announces l -> stdout_announces (run net n l)).
  { induction n as [|n IH]; intros l Hl; [exact Hl |].
    rewrite run_succ. apply IH. now apply step_stdout_announces. }
  specialize (H (start p0 lp h) eq_refl). unfold stdout_announces in H.
  rewrite H.
  assert (Hh : host (run net n (start p0 lp h)) = h).
  { apply (run_globals_in_range net p0 lp h n (start p0 lp h)).
    repeat split; simpl; lia. }
  destruct (status (run net n (start p0 lp h))); try reflexivity.
  now rewrite Hh.
Qed.

(** X22. Every run on ports that [listen] accepts, the starting port
    and [lastPort] being from 0 to 65535, settles: after one step per
    port from the starting port to [lastPort], and one more, no [listen]
    is pending: the server listens, [process.exit(2)] was called, or an
    error was left without reaction. *)
Theorem listener_settles
        (net : Z -> string -> option ListenError)
        (p0 lp : Z) (h : string) (n : nat) :
  0 <= p0 ->
  Z.max p0 lp <= 65535 ->
  (Z.to_nat (lp - p0) < n)%nat ->
  status (run net n (start p0 lp h)) = Listening
  \/ status (run net n (start p0 lp h)) = Exited 2
  \/ status (run net n (start p0 lp h)) = Unbound.
Proof.
  intros _ _ Hn.
  pose proof (run_settles net n (start p0 lp h) Hn) as Hnb.
  assert (H : tried_ports_in_use net h (run net n (start p0 lp h))).
  { apply run_tried_ports_in_use. split; [reflexivity |]. simpl.
    exists []. split; [reflexivity | constructor]. }
  destruct H as [_ H].
  destruct (status (run net n (start p0 lp h))) as [| |c|].
  - contradiction.
  - now left.
  - destruct H as [-> _]. right. now left.
  - right. now right.
Qed.

(* ================================================================== *)
(** * Properties of the command line *)
(* ================================================================== *)

Lemma indexOf_from_absent (argv : list string) (key : string) :
  forall i, ~ In key argv -> indexOf_from argv key i = -1.
Proof.
  induction argv as [|a rest IH]; intros i H; [reflexivity |].
  simpl. destruct (String.eqb_spec a key) as [-> | Hne].
  - exfalso. apply H. now left.
  - apply IH. intros Hin. apply H. now right.
Qed.

Lemma indexOf_from_first (pre post : list string) (key : string) :
  forall i,
    ~ In key pre ->
    indexOf_from (pre ++ key :: post) key i = i + Z.of_nat (length pre).
Proof.
  induction pre as [|a rest IH]; intros i H; simpl.
  - rewrite String.eqb_refl. lia.
  - destruct (String.eqb_spec a key) as [-> | Hne].
    + exfalso. apply H. now left.
    + rewrite IH; [lia |]. intros Hin. apply H. now right.
Qed.

Lemma getOpt_absent (argv : list string) (key : string) :
  ~ In key argv -> getOpt argv key = OptFalse.
Proof.
  intros H. unfold getOpt, indexOf. now rewrite indexOf_from_absent.
Qed.

Lemma getOpt_at (pre post : list string) (key : string) :
  ~ In key pre ->
  getOpt (pre ++ key :: post) key
  = match post with
    | v :: _ => OptString v
    | [] => OptUndefined
    end.
Proof.
  intros H. unfold getOpt, indexOf. rewrite indexOf_from_first by exact H.
  replace (negb (0 + Z.of_nat (length pre) =? -1)) with true
    by (symmetry; apply negb_true_iff, Z.eqb_neq; lia).
  unfold argv_at.
  replace (0 + Z.of_nat (length pre) + 1 <? 0) with false
    by (symmetry; apply Z.ltb_ge; lia).
  replace (Z.to_nat (0 + Z.of_nat (length pre) + 1))
    with (length pre + 1)%nat by lia.
  rewrite lookup_app_r by lia.
  replace (length pre + 1 - length pre)%nat with 1%nat by lia.
  now destruct post.
Qed.

(** X23. [getOpt] answers with the argument that follows the first
    occurrence of the flag, with [undefined] when the flag is the last
    argument, and with [false] when the flag does not occur. *)
Theorem getOpt_reads_after_first_occurrence
        (pre post : list string) (key v : string) :
  ~ In key pre ->
  getOpt (pre ++ key :: v :: post) key = OptString v
  /\ getOpt (pre ++ [key]) key = OptUndefined
  /\ getOpt pre key = OptFalse.
Proof.
  intros H. split; [now rewrite getOpt_at |].
  split; [now rewrite getOpt_at | now apply getOpt_absent].
Qed.

(** X24. Started without any of the three flags, the script listens on
    127.0.0.1 with the port range 3003 to 3003. *)
Theorem boot_defaults (argv : list string) :
  ~ In "--port" argv ->
  ~ In "--lastport" argv ->
  ~ In "--host" argv ->
  boot argv = start 3003 3003 "127.0.0.1".
Proof.
  intros Hp Hl Hh. unfold boot.
  now rewrite !getOpt_absent by assumption.
Qed.

Lemma all_digits_string_of_uint (d : Decimal.uint) :
  all_chars is_digit (NilEmpty.string_of_uint d) = true.
Proof. induction d; simpl; try reflexivity; exact IHd. Qed.

Lemma take_while_all (cls : ascii -> bool) (s junk : string) :
  all_chars cls s = true ->
  match junk with
  | String c _ => cls c = false
  | EmptyString => True
  end ->
  take_while cls (s +:+ junk) = s.
Proof.
  intros Hs Hj. induction s as [|c t IH].
  - rewrite app_empty_l. destruct junk as [|c r]; [reflexivity |].
    simpl. now rewrite Hj.
  - simpl in Hs. apply andb_prop in Hs as [Hc Ht].
    rewrite app_cons. simpl. rewrite Hc. f_equal. now apply IH.
Qed.

(** The digits of a numeral followed by something that is no digit. *)
Lemma parseInt_digits (negative : bool) (d : Decimal.uint) (junk : string) :
  d <> Decimal.Nil ->
  match junk with
  | String c _ => is_digit c = false
  | EmptyString => True
  end ->
  parseInt (OptString ((if negative then "-" else "")
                       +:+ NilEmpty.string_of_uint d +:+ junk))
  = Some ((if negative then -1 else 1) * Z.of_uint d).
Proof.
  intros Hd Hj.
  assert (Htake : take_while is_digit (NilEmpty.string_of_uint d +:+ junk)
                  = NilEmpty.string_of_uint d)
    by (apply take_while_all; [apply all_digits_string_of_uint | exact Hj]).
  assert (Hparse : NilEmpty.uint_of_string (NilEmpty.string_of_uint d) = Some d)
    by apply NilEmpty.usu.
  unfold parseInt. simpl opt_to_string.
  destruct negative.
  - change ("-" +:+ NilEmpty.string_of_uint d +:+ junk)
      with (String "-" (NilEmpty.string_of_uint d +:+ junk)).
    change (lstrip (String "-" (NilEmpty.string_of_uint d +:+ junk)))
      with (String "-" (NilEmpty.string_of_uint d +:+ junk)).
    cbv beta iota zeta. change (is_char "-" "-") with true. cbv iota.
    cbn [fst snd]. rewrite Htake, Hparse.
    destruct d; [contradiction | reflexivity ..].
  - rewrite app_empty_l.
    destruct d; [contradiction | ..];
      (cbn [NilEmpty.string_of_uint] in *; rewrite app_cons in *;
       match goal with
       | |- context [lstrip (String ?c ?t)] =>
           change (lstrip (String c t)) with (String c t)
       end;
       cbv beta iota zeta;
       match goal with
       | |- context [is_char "-" ?c] => change (is_char "-" c) with false
       end;
       match goal with
       | |- context [is_char "+" ?c] => change (is_char "+" c) with false
       end;
       cbv iota; cbn [fst snd]; rewrite Htake, Hparse; reflexivity).
Qed.

(** The numeral that [number_to_string] prints reads back. *)
Lemma parseInt_number_to_string (z : Z) (junk : string) :
  match junk with
  | String c _ => is_digit c = false
  | EmptyString => True
  end ->
  parseInt (OptString (number_to_string z +:+ junk)) = Some z.
Proof.
  intros Hj. unfold number_to_string. destruct z as [|p|p]; simpl Z.to_int.
  - exact (parseInt_digits false Decimal.zero junk ltac:(discriminate) Hj).
  - pose proof (DecimalPos.Unsigned.to_uint_nonnil p) as Hnn.
    pose proof (DecimalPos.Unsigned.of_to p) as Hof.
    unfold NilZero.string_of_int, NilZero.string_of_uint.
    destruct (Pos.to_uint p) eqn:E; [contradiction | ..];
      rewrite <- E in *;
      rewrite <- (app_empty_l (NilEmpty.string_of_uint (Pos.to_uint p) +:+ junk));
      rewrite (parseInt_digits false _ junk Hnn Hj);
      unfold Z.of_uint; rewrite Hof; reflexivity.
  - pose proof (DecimalPos.Unsigned.to_uint_nonnil p) as Hnn.
    pose proof (DecimalPos.Unsigned.of_to p) as Hof.
    unfold NilZero.string_of_int, NilZero.string_of_uint.
    destruct (Pos.to_uint p) eqn:E; [contradiction | ..];
      rewrite <- E in *;
      rewrite app_cons;
      change (String "-" (NilEmpty.string_of_uint (Pos.to_uint p) +:+ junk))
        with ("-" +:+ NilEmpty.string_of_uint (Pos.to_uint p) +:+ junk);
      rewrite (parseInt_digits true _ junk Hnn Hj);
      unfold Z.of_uint; rewrite Hof; reflexivity.
Qed.

Lemma ends_numeral_head (junk : string) :
  ends_numeral junk = true ->
  match junk with
  | String c _ => is_digit c = false
  | EmptyString => True
  end.
Proof.
  destruct junk as [|c r]; [intros _; exact I |].
  cbn [ends_numeral]. intros H. now apply negb_true_iff in H.
Qed.

Lemma port_boot (argv : list string) :
  port (boot argv) = number_or (parseInt (getOpt argv "--port")) 3003
  /\ lastPort (boot argv)
     = number_or (parseInt (getOpt argv "--lastport")) 3003
  /\ host (boot argv) = opt_or (getOpt argv "--host") "127.0.0.1".
Proof. now repeat split. Qed.

(** X25. A flag followed by the decimal numeral of an integer other
    than zero, with anything that is no digit after it, sets the port,
    or the last port, to that integer; the numeral of zero leaves the
    default 3003. The integer is taken in the range in which a Number
    holds it exactly. *)
Theorem boot_reads_numerals
        (pre post : list string) (z : Z) (junk : string) :
  - 2 ^ 53 < z < 2 ^ 53 ->
  ends_numeral junk = true ->
  (~ In "--port" pre ->
   port (boot (pre ++ "--port" :: (number_to_string z +:+ junk) :: post))
   = if z =? 0 then 3003 else z)
  /\ (~ In "--lastport" pre ->
      lastPort (boot (pre ++ "--lastport"
                          :: (number_to_string z +:+ junk) :: post))
      = if z =? 0 then 3003 else z).
Proof.
  intros _ Hj. apply ends_numeral_head in Hj.
  split; intros Hpre.
  - rewrite (proj1 (port_boot _)), getOpt_at by exact Hpre.
    now rewrite parseInt_number_to_string.
  - rewrite (proj1 (proj2 (port_boot _))), getOpt_at by exact Hpre.
    now rewrite parseInt_number_to_string.
Qed.

Lemma parseInt_without_numeral (v : string) :
  starts_without_numeral v = true -> parseInt (OptString v) = None.
Proof.
  destruct v as [|c t]; [reflexivity |].
  cbn [starts_without_numeral]. intros H. apply negb_true_iff in H.
  apply orb_false_elim in H as [H Hd].
  apply orb_false_elim in H as [H Hplus].
  apply orb_false_elim in H as [Hs Hminus].
  unfold parseInt. simpl opt_to_string.
  replace (lstrip (String c t)) with (String c t)
    by (unfold lstrip; cbn [drop_while]; now rewrite Hs).
  cbv beta iota zeta. rewrite Hminus, Hplus. cbn [fst snd take_while].
  now rewrite Hd.
Qed.

(** X26. A port flag given last, without a value, or followed by a value
    from which no numeral can be read, leaves the default 3003. *)
Theorem boot_falls_back_to_default
        (pre post : list string) (v : string) :
  ~ In "--port" pre ->
  starts_without_numeral v = true ->
  port (boot (pre ++ ["--port"])) = 3003
  /\ port (boot (pre ++ "--port" :: v :: post)) = 3003.
Proof.
  intros Hpre Hv. split.
  - now rewrite (proj1 (port_boot _)), getOpt_at by exact Hpre.
  - rewrite (proj1 (port_boot _)), getOpt_at by exact Hpre.
    now rewrite (parseInt_without_numeral _ Hv).
Qed.

(** X27. Started without port flags, the range is the single port 3003:
    if binding it fails with the string [EADDRINUSE] as [errno], the
    form of an address in use on Node up to version 12, the process
    exits with status 2 at once, having tried no other port. *)
Theorem boot_default_port_in_use
        (net : Z -> string -> option ListenError) (argv : list string)
        (n : nat) :
  ~ In "--port" argv ->
  ~ In "--lastport" argv ->
  ~ In "--host" argv ->
  in_use net "127.0.0.1" 3003 ->
  (0 < n)%nat ->
  status (run net n (boot argv)) = Exited 2
  /\ bind_attempts (history (run net n (boot argv))) = [3003].
Proof.
  intros Hp Hl Hh Hbusy Hn. unfold boot.
  rewrite !getOpt_absent by assumption.
  change (number_or (parseInt OptFalse) 3003) with 3003.
  change (opt_or OptFalse "127.0.0.1") with "127.0.0.1".
  destruct n as [|n]; [lia |]. rewrite run_succ.
  rewrite step_on_port_in_use by (try reflexivity; exact Hbusy).
  simpl. rewrite run_settled by (simpl; discriminate).
  simpl. now split.
Qed.

(* ================================================================== *)
(** * The ports passed to listen *)
(* ================================================================== *)

Lemma ports_from_succ (p0 : Z) (k : nat) :
  ports_from p0 (S k) = ports_from p0 k ++ [p0 + Z.of_nat (S k)].
Proof.
  unfold ports_from. rewrite (seq_S (S k) 0), map_app. reflexivity.
Qed.

Lemma step_attempts_consecutive (net : Z -> string -> option ListenError)
      (p0 : Z) (l : Listener) :
  attempts_consecutive p0 l -> attempts_consecutive p0 (step net l).
Proof.
  intros [k [Hp Hh]]. unfold step.
  destruct (status l); try (now exists k).
  destruct (net (port l) (host l)) as [err|].
  - unfold on_error. destruct (strict_equals (errno err) "EADDRINUSE");
      [| now exists k].
    destruct (port l >=? lastPort l).
    + exists k. simpl. split; [exact Hp |].
      rewrite bind_attempts_app, Hh. simpl. now rewrite app_nil_r.
    + exists (S k). split; [simpl; lia |].
      unfold listen. cbn [history port host].
      rewrite bind_attempts_app, Hh, ports_from_succ.
      cbn [bind_attempts]. rewrite Hp, Nat2Z.inj_succ.
      now replace (p0 + Z.of_nat k + 1) with (p0 + Z.succ (Z.of_nat k)) by lia.
  - exists k. simpl. split; [exact Hp |].
    rewrite bind_attempts_app, Hh. simpl. now rewrite app_nil_r.
Qed.

Lemma run_attempts_consecutive (net : Z -> string -> option ListenError)
      (p0 lp : Z) (h : string) (n : nat) :
  attempts_consecutive p0 (run net n (start p0 lp h)).
Proof.
  assert (H : forall l, attempts_consecutive p0 l ->
                        attempts_consecutive p0 (run net n l)).
  { induction n as [|n IH]; intros l Hl; [exact Hl |].
    rewrite run_succ. apply IH. now apply step_attempts_consecutive. }
  apply H. exists 0%nat. simpl. split; [lia |].
  unfold ports_from. simpl. now rewrite Z.add_0_r.
Qed.

(** X28. The ports that a run passes to [listen] are the starting port
    and its successors, each tried once and in order, the last of them
    being the current port. *)
Theorem listener_tries_consecutive_ports
        (net : Z -> string -> option ListenError)
        (p0 lp : Z) (h : string) (n : nat) :
  exists k : nat,
    bind_attempts (history (run net n (start p0 lp h)))
    = List.map (fun i => p0 + Z.of_nat i) (seq 0 (S k))
    /\ port (run net n (start p0 lp h)) = p0 + Z.of_nat k.
Proof.
  destruct (run_attempts_consecutive net p0 lp h n) as [k [Hp Hh]].
  exists k. split; [exact Hh | exact Hp].
Qed.

(** X29. With the starting port and [lastPort] from 0 to 65535, every
    port that a run passes to [listen] is from 0 to 65535: no [listen]
    of the run is given a port for which it throws a [RangeError]. *)
Theorem listener_ports_stay_valid
        (net : Z -> string -> option ListenError)
        (p0 lp : Z) (h : string) (n : nat) :
  0 <= p0 ->
  Z.max p0 lp <= 65535 ->
  Forall (fun p => valid_port p = true)
         (bind_attempts (history (run net n (start p0 lp h)))).
Proof.
  intros Hlo Hhi.
  destruct (run_attempts_consecutive net p0 lp h n) as [k [Hp Hh]].
  destruct (run_globals_in_range net p0 lp h n (start p0 lp h))
    as [_ [_ Hr]]; [repeat split; simpl; lia |].
  rewrite Hh. unfold ports_from. apply List.Forall_forall. intros p Hin.
  apply List.in_map_iff in Hin as [i [<- Hi]]. apply List.in_seq in Hi.
  unfold valid_port. apply andb_true_intro.
  split; [apply Z.leb_le | apply Z.leb_le]; lia.
Qed.

(* ================================================================== *)
(** * The further properties at the samples *)
(* ================================================================== *)

Lemma removeJsComments_without_comment_witness :
  has_pair "/" "*" "{ a: 1 / 2 }" = false
  /\ has_pair "/" "/" "{ a: 1 / 2 }" = false
  /\ _removeJsComments "{ a: 1 / 2 }" = "{ a: 1 / 2 }".
Proof.
  split; [reflexivity |]. split; [reflexivity |].
  exact (removeJsComments_without_comment "{ a: 1 / 2 }" eq_refl eq_refl).
Defined.

Lemma removeJsComments_leading_block_witness :
  has_pair "*" "/" " a // b * / c " = false
  /\ _removeJsComments ("/*" +:+ " a // b * / c " +:+ "*/" +:+ "{}")
     = _removeJsComments "{}".
Proof.
  split; [reflexivity |].
  exact (removeJsComments_leading_block " a // b * / c " "{}" eq_refl).
Defined.

Lemma removeJsComments_line_comment_witness :
  all_chars not_slash "{ a: 1, " = true
  /\ has_pair "/" "*" ("/" +:+ " one") = false
  /\ all_chars not_line_end " one" = true
  /\ ends_line (String LF "b: 2 }") = true
  /\ _removeJsComments ("{ a: 1, " +:+ "//" +:+ " one" +:+ String LF "b: 2 }")
     = "{ a: 1, " +:+ _removeJsComments (String LF "b: 2 }").
Proof.
  split; [reflexivity |]. split; [reflexivity |]. split; [reflexivity |].
  split; [reflexivity |].
  exact (removeJsComments_line_comment "{ a: 1, " " one" (String LF "b: 2 }")
           eq_refl eq_refl eq_refl eq_refl).
Defined.

Lemma getConfig_other_keys_untouched_witness :
  to_string (Some "other/.jshintrc") <> "__proto__"
  /\ ".jshintrc" <> to_string (Some "other/.jshintrc")
  /\ exists r st',
       _getConfig sample_parse (fs_with edited_stat "{}")
                  (Some "other/.jshintrc") loaded_store = (r, st')
       /\ _cache st' !! ".jshintrc" = _cache loaded_store !! ".jshintrc".
Proof.
  assert (H0 : to_string (Some "other/.jshintrc") <> "__proto__")
    by discriminate.
  assert (H : ".jshintrc" <> to_string (Some "other/.jshintrc"))
    by discriminate.
  split; [exact H0 |]. split; [exact H |].
  exact (getConfig_other_keys_untouched sample_parse (fs_with edited_stat "{}")
           (Some "other/.jshintrc") loaded_store ".jshintrc" H0 H).
Defined.


Lemma getConfig_second_call_reuses_witness :
  ".jshintrc" <> ""
  /\ load_failure sample_parse (sample_fs "{}") ".jshintrc"
                  (stored_stat initial_store ".jshintrc") = None
  /\ exists c st1 st2,
       _getConfig sample_parse (sample_fs "{}") (Some ".jshintrc")
                  initial_store = (Ok c, st1)
       /\ _getConfig sample_parse (sample_fs "{}") (Some ".jshintrc") st1
          = (Ok c, st2)
       /\ _cache st2 = _cache st1.
Proof.
  assert (Hp : ".jshintrc" <> "") by discriminate.
  split; [exact Hp |]. split; [reflexivity |].
  destruct (getConfig_second_call_reuses
              sample_parse (sample_fs "{}") ".jshintrc" initial_store 7
              sample_stat Hp eq_refl eq_refl eq_refl)
    as [c [st1 [st2 [evs [H1 [H2 [_ [_ [_ [Hc _]]]]]]]]]].
  now exists c, st1, st2.
Defined.


Lemma getConfig_without_path_witness :
  truthy None = false
  /\ exists c1 st1 c2 st2,
       _getConfig sample_parse empty_fs None initial_store = (Ok c1, st1)
       /\ _getConfig sample_parse empty_fs None st1 = (Ok c2, st2)
       /\ events st2 = events initial_store
       /\ cfg_ref c1 <> cfg_ref c2.
Proof.
  split; [reflexivity |].
  destruct (getConfig_without_path sample_parse empty_fs None initial_store
              eq_refl)
    as [c1 [st1 [c2 [st2 [H1 [H2 [He [_ [_ [Hne _]]]]]]]]]].
  now exists c1, st1, c2, st2.
Defined.

Lemma getConfig_blind_to_comments_witness :
  ".jshintrc" <> ""
  /\ same_up_to_comments (sample_fs "{}") (sample_fs "/* none */{}// yet")
                         ".jshintrc"
  /\ _getConfig sample_parse (sample_fs "{}") (Some ".jshintrc") initial_store
     = _getConfig sample_parse (sample_fs "/* none */{}// yet")
                  (Some ".jshintrc") initial_store.
Proof.
  assert (Hp : ".jshintrc" <> "") by discriminate.
  assert (Hs : same_up_to_comments (sample_fs "{}")
                 (sample_fs "/* none */{}// yet") ".jshintrc").
  { split; [reflexivity |]. split; [reflexivity |]. intros d. reflexivity. }
  split; [exact Hp |]. split; [exact Hs |].
  exact (getConfig_blind_to_comments sample_parse (sample_fs "{}")
           (sample_fs "/* none */{}// yet") ".jshintrc" initial_store Hp Hs).
Defined.

Lemma check_without_filename_witness :
  f_filename {| f_source := Some ""; f_filename := None; f_mode := None;
                f_showCode := None; f_jshintrc := None |} = None
  /\ exists st' mid,
       on_form sample_parse sample_hinters empty_fs 10 25
               {| f_source := Some ""; f_filename := None; f_mode := None;
                  f_showCode := None; f_jshintrc := None |} initial_store
       = (Ok {| statusCode := 200;
                headers := [("Content-Type", "text/plain")];
                body := "js: No problems found in undefined" +:+ nl |},
          st')
       /\ events st'
          = events initial_store
            ++ ConsoleLog "Applying 'jshint' to: anonymous"
            :: mid ++ [ConsoleLog "Took 15ms to lint anonymous"].
Proof.
  split; [reflexivity |].
  exact (check_without_filename sample_parse sample_hinters empty_fs 10 25
           {| f_source := Some ""; f_filename := None; f_mode := None;
              f_showCode := None; f_jshintrc := None |} initial_store
           eq_refl (fun _ => eq_refl)).
Defined.

Lemma taken_below_in_use (free p : Z) (h : string) :
  p < free -> in_use (taken_below free) h p.
Proof.
  intros H. exists eaddrinuse. split; [| reflexivity].
  unfold taken_below. now replace (p <? free) with true
    by (symmetry; apply Z.ltb_lt; lia).
Qed.

Lemma listener_binds_first_free_port_witness :
  0 <= 3003
  /\ 3003 + 2 <= 65535
  /\ 0 <= 2
  /\ (2 = 0 \/ 3003 + 2 <= 3010)
  /\ (forall p, 3003 <= p < 3003 + 2 -> in_use (taken_below 3005) "127.0.0.1" p)
  /\ taken_below 3005 (3003 + 2) "127.0.0.1" = None
  /\ status (run (taken_below 3005) 3 (start 3003 3010 "127.0.0.1")) = Listening
  /\ port (run (taken_below 3005) 3 (start 3003 3010 "127.0.0.1")) = 3003 + 2.
Proof.
  assert (H0 : 0 <= 2) by discriminate.
  assert (H1 : 2 = 0 \/ 3003 + 2 <= 3010) by (right; discriminate).
  assert (H2 : forall p, 3003 <= p < 3003 + 2 ->
                         in_use (taken_below 3005) "127.0.0.1" p)
    by (intros p Hp; apply taken_below_in_use; lia).
  assert (Hlo : 0 <= 3003) by discriminate.
  assert (Hhi : 3003 + 2 <= 65535) by discriminate.
  split; [exact Hlo |]. split; [exact Hhi |].
  split; [exact H0 |]. split; [exact H1 |]. split; [exact H2 |].
  split; [reflexivity |].
  destruct (listener_binds_first_free_port (taken_below 3005) 3003 3010
              "127.0.0.1" 2 3 Hlo Hhi H0 H1 H2 eq_refl ltac:(simpl; lia))
    as [Hs [Hp _]].
  now split.
Defined.

Lemma listener_exits_when_range_in_use_witness :
  0 <= 3003
  /\ Z.max 3003 3004 <= 65535
  /\ (forall p, 3003 <= p <= Z.max 3003 3004 ->
             in_use (taken_below 4000) "127.0.0.1" p)
  /\ status (run (taken_below 4000) 2 (start 3003 3004 "127.0.0.1")) = Exited 2
  /\ port (run (taken_below 4000) 2 (start 3003 3004 "127.0.0.1"))
     = Z.max 3003 3004.
Proof.
  assert (H : forall p, 3003 <= p <= Z.max 3003 3004 ->
                        in_use (taken_below 4000) "127.0.0.1" p).
  { intros p Hp. apply taken_below_in_use.
    change (Z.max 3003 3004) with 3004 in Hp. lia. }
  assert (Hlo : 0 <= 3003) by discriminate.
  assert (Hhi : Z.max 3003 3004 <= 65535) by discriminate.
  split; [exact Hlo |]. split; [exact Hhi |]. split; [exact H |].
  destruct (listener_exits_when_range_in_use (taken_below 4000) 3003 3004
              "127.0.0.1" 2 Hlo Hhi H ltac:(simpl; lia))
    as [Hs [Hp _]].
  now split.
Defined.

Lemma listener_exit_means_range_in_use_witness :
  status (run (taken_below 4000) 2 (start 3003 3004 "127.0.0.1")) = Exited 2
  /\ 3004 <= port (run (taken_below 4000) 2 (start 3003 3004 "127.0.0.1"))
  /\ Forall (in_use (taken_below 4000) "127.0.0.1")
            (bind_attempts
               (history (run (taken_below 4000) 2
                             (start 3003 3004 "127.0.0.1")))).
Proof.
  split; [reflexivity |].
  exact (proj2 (listener_exit_means_range_in_use (taken_below 4000) 3003 3004
                  "127.0.0.1" 2 2 eq_refl)).
Defined.


Lemma listener_settles_witness :
  0 <= 3003
  /\ Z.max 3003 3010 <= 65535
  /\ (Z.to_nat (3010 - 3003) < 8)%nat
  /\ (status (run (taken_below 3005) 8 (start 3003 3010 "127.0.0.1")) = Listening
      \/ status (run (taken_below 3005) 8 (start 3003 3010 "127.0.0.1"))
         = Exited 2
      \/ status (run (taken_below 3005) 8 (start 3003 3010 "127.0.0.1"))
         = Unbound).
Proof.
  assert (H : (Z.to_nat (3010 - 3003) < 8)%nat) by (simpl; lia).
  assert (Hlo : 0 <= 3003) by discriminate.
  assert (Hhi : Z.max 3003 3010 <= 65535) by discriminate.
  split; [exact Hlo |]. split; [exact Hhi |]. split; [exact H |].
  exact (listener_settles (taken_below 3005) 3003 3010 "127.0.0.1" 8
           Hlo Hhi H).
Defined.

Lemma getOpt_reads_after_first_occurrence_witness :
  ~ In "--port" ["node"; "jshint-mode.js"]
  /\ getOpt (["node"; "jshint-mode.js"] ++ "--port" :: "3005" :: ["--port"; "9"])
            "--port"
     = OptString "3005"
  /\ getOpt (["node"; "jshint-mode.js"] ++ ["--port"]) "--port" = OptUndefined
  /\ getOpt ["node"; "jshint-mode.js"] "--port" = OptFalse.
Proof.
  assert (H : ~ In "--port" ["node"; "jshint-mode.js"]).
  { intros [H | [H | []]]; discriminate. }
  split; [exact H |].
  exact (getOpt_reads_after_first_occurrence ["node"; "jshint-mode.js"]
           ["--port"; "9"] "--port" "3005" H).
Defined.

Lemma boot_defaults_witness :
  ~ In "--port" ["node"; "jshint-mode.js"]
  /\ ~ In "--lastport" ["node"; "jshint-mode.js"]
  /\ ~ In "--host" ["node"; "jshint-mode.js"]
  /\ boot ["node"; "jshint-mode.js"] = start 3003 3003 "127.0.0.1".
Proof.
  assert (H : forall key, key <> "node" -> key <> "jshint-mode.js" ->
                          ~ In key ["node"; "jshint-mode.js"]).
  { intros key H1 H2 [H | [H | []]]; congruence. }
  assert (Hp := H "--port" ltac:(discriminate) ltac:(discriminate)).
  assert (Hl := H "--lastport" ltac:(discriminate) ltac:(discriminate)).
  assert (Hh := H "--host" ltac:(discriminate) ltac:(discriminate)).
  split; [exact Hp |]. split; [exact Hl |]. split; [exact Hh |].
  exact (boot_defaults ["node"; "jshint-mode.js"] Hp Hl Hh).
Defined.

Lemma boot_reads_numerals_witness :
  - 2 ^ 53 < 3010 < 2 ^ 53
  /\ ends_numeral "" = true
  /\ ~ In "--lastport" ["node"; "jshint-mode.js"]
  /\ lastPort (boot (["node"; "jshint-mode.js"] ++ "--lastport"
                       :: (number_to_string 3010 +:+ "") :: []))
     = 3010.
Proof.
  assert (Hr : - 2 ^ 53 < 3010 < 2 ^ 53) by (split; reflexivity).
  assert (Hl : ~ In "--lastport" ["node"; "jshint-mode.js"]).
  { intros [H | [H | []]]; discriminate. }
  split; [exact Hr |]. split; [reflexivity |]. split; [exact Hl |].
  exact (proj2 (boot_reads_numerals ["node"; "jshint-mode.js"] [] 3010 ""
                  Hr eq_refl) Hl).
Defined.

Lemma boot_falls_back_to_default_witness :
  ~ In "--port" ["node"; "jshint-mode.js"]
  /\ starts_without_numeral "auto" = true
  /\ port (boot (["node"; "jshint-mode.js"] ++ ["--port"])) = 3003
  /\ port (boot (["node"; "jshint-mode.js"] ++ "--port" :: "auto" :: []))
     = 3003.
Proof.
  assert (Hp : ~ In "--port" ["node"; "jshint-mode.js"]).
  { intros [H | [H | []]]; discriminate. }
  split; [exact Hp |]. split; [reflexivity |].
  exact (boot_falls_back_to_default ["node"; "jshint-mode.js"] [] "auto"
           Hp eq_refl).
Defined.

Lemma boot_default_port_in_use_witness :
  ~ In "--port" ["node"; "jshint-mode.js"]
  /\ ~ In "--lastport" ["node"; "jshint-mode.js"]
  /\ ~ In "--host" ["node"; "jshint-mode.js"]
  /\ in_use (taken_below 4000) "127.0.0.1" 3003
  /\ status (run (taken_below 4000) 1 (boot ["node"; "jshint-mode.js"]))
     = Exited 2
  /\ bind_attempts
       (history (run (taken_below 4000) 1 (boot ["node"; "jshint-mode.js"])))
     = [3003].
Proof.
  assert (H : forall key, key <> "node" -> key <> "jshint-mode.js" ->
                          ~ In key ["node"; "jshint-mode.js"]).
  { intros key H1 H2 [H | [H | []]]; congruence. }
  assert (Hp := H "--port" ltac:(discriminate) ltac:(discriminate)).
  assert (Hl := H "--lastport" ltac:(discriminate) ltac:(discriminate)).
  assert (Hh := H "--host" ltac:(discriminate) ltac:(discriminate)).
  assert (Hb : in_use (taken_below 4000) "127.0.0.1" 3003)
    by (apply taken_below_in_use; lia).
  split; [exact Hp |]. split; [exact Hl |]. split; [exact Hh |].
  split; [exact Hb |].
  exact (boot_default_port_in_use (taken_below 4000) ["node"; "jshint-mode.js"]
           1 Hp Hl Hh Hb ltac:(lia)).
Defined.

Lemma listener_ports_stay_valid_witness :
  0 <= 3003
  /\ Z.max 3003 3010 <= 65535
  /\ bind_attempts (history (run (taken_below 3005) 8 (start 3003 3010 "127.0.0.1")))
     = [3003; 3004; 3005]
  /\ Forall (fun p => valid_port p = true) [3003; 3004; 3005].
Proof.
  assert (Hlo : 0 <= 3003) by discriminate.
  assert (Hhi : Z.max 3003 3010 <= 65535) by discriminate.
  split; [exact Hlo |]. split; [exact Hhi |]. split; [reflexivity |].
  exact (listener_ports_stay_valid (taken_below 3005) 3003 3010 "127.0.0.1" 8
           Hlo Hhi).
Defined.
